(** * CSS value builders: calc expressions, transforms, transitions, animations

    A shallow embedding of the utility package's chainable builders
    ([calc.ts], [transform.ts], [transition.ts], [animation.ts] and the
    unit helpers of [types/util.ts]) together with the part of the
    JavaScript runtime they rely on: IEEE-754 binary64 numbers, the
    [Number(...)] conversion of strings, the decimal rendering of numbers
    inside template literals, [Array.prototype.join], and objects that are
    mutated in place ([Object.assign]) or copied ([{ ...o }]).

    Strings are sequences of code units below 256; every string the
    builders produce themselves is ASCII. *)

From Stdlib Require Import ZArith Ascii String DecimalString SpecFloat.
From stdpp Require Import gmap strings list fin_maps.

Local Open Scope string_scope.
Local Open Scope Z_scope.

(* ===================================================================== *)
(** ** JavaScript numbers *)
(* ===================================================================== *)

Module JsNumber.

(** A JavaScript number is a binary64 float; NaN payloads are not
    observable from the language.  Finite non-zero values are kept in
    canonical form (the one [binary_round] produces). *)
Definition number : Type := spec_float.

Definition prec : Z := 53.
Definition emax : Z := 1024.

Definition NaN : number := S754_nan.

(** [Number.isNaN] *)
Definition isNaN (x : number) : bool :=
  match x with S754_nan => true | _ => false end.

(** [x === y] on numbers: IEEE equality, so [NaN] differs from itself
    and the two zeros are equal. *)
Definition strict_eq (x y : number) : bool := SFeqb x y.

(** Identity of the represented value (used to test round trips). *)
Definition same_value (x y : number) : bool :=
  match x, y with
  | S754_nan, S754_nan => true
  | S754_zero a, S754_zero b => Bool.eqb a b
  | S754_infinity a, S754_infinity b => Bool.eqb a b
  | S754_finite a m e, S754_finite b m' e' =>
      Bool.eqb a b && Pos.eqb m m' && Z.eqb e e'
  | _, _ => false
  end.

(** The number nearest to the integer [z] (ties to even). *)
Definition of_Z (z : Z) : number := binary_normalize prec emax z 0 false.

(** The number nearest to [s * 10^p], for [0 <= s], with sign [neg]. *)
Definition of_decimal (neg : bool) (s p : Z) : number :=
  match s with
  | Zpos _ =>
      if 0 <=? p then
        match s * 10 ^ p with
        | Zpos m => binary_round prec emax neg m 0
        | _ => S754_zero neg
        end
      else
        let '(q, e, l) := SFdiv_core_binary prec emax s 0 (10 ^ (- p)) 0 in
        binary_round_aux prec emax neg q e l
  | _ => S754_zero neg
  end.

Definition mul (x y : number) : number := SFmul prec emax x y.
Definition add (x y : number) : number := SFadd prec emax x y.

(** *** Number::toString, radix 10 *)

(** Decimal digits of a non-negative integer. *)
Definition digits (z : Z) : string := NilZero.string_of_uint (N.to_uint (Z.to_N z)).

Fixpoint zeros (n : nat) : string :=
  match n with O => "" | S n' => String "0" (zeros n') end.

(** Drop the trailing zero digits of [s], raising the exponent. *)
Fixpoint strip_zeros (fuel : nat) (s p : Z) : Z * Z :=
  match fuel with
  | O => (s, p)
  | S fuel' =>
      if (0 <? s) && (s mod 10 =? 0) then strip_zeros fuel' (s / 10) (p + 1)
      else (s, p)
  end.

(** The exponent [n] with [10^(n-1) <= num/den < 10^n], for a positive
    fraction.  Below one, the least [j] with [num * 10^j >= den] is
    found by counting; [j] never exceeds the bit length of [den]. *)
Fixpoint scale_up (fuel : nat) (num den j : Z) : Z :=
  match fuel with
  | O => j
  | S fuel' =>
      if den <=? num then j else scale_up fuel' (num * 10) den (j + 1)
  end.

Definition decimal_exponent (num den : Z) : Z :=
  if den <=? num
  then Z.of_nat (String.length (digits (num / den)))
  else 1 - scale_up (S (Z.to_nat (Z.log2 den))) (num * 10) den 1.

(** The [k]-digit candidates next to [num/den] and the choice among
    those that read back as [x]: the closer one, the even one on a tie. *)
Definition candidate (x : number) (num den n k : Z) : option (Z * Z) :=
  let t := k - n in
  let P := num * 10 ^ (Z.max t 0) in
  let Q := den * 10 ^ (Z.max (- t) 0) in
  let lo := P / Q in
  let r := P mod Q in
  let ok c := same_value (of_decimal false c (- t)) x in
  if r =? 0 then Some (lo, - t)
  else
    match ok lo, ok (lo + 1) with
    | true, true =>
        match Z.compare (2 * r) Q with
        | Lt => Some (lo, - t)
        | Gt => Some (lo + 1, - t)
        | Eq => Some (if Z.even lo then lo else lo + 1, - t)
        end
    | true, false => Some (lo, - t)
    | false, true => Some (lo + 1, - t)
    | false, false => None
    end.

Fixpoint shortest (fuel : nat) (x : number) (num den n k : Z) : Z * Z :=
  match fuel with
  | O => (num * 10 ^ (Z.max (k - n) 0) / (den * 10 ^ (Z.max (n - k) 0)), n - k)
  | S fuel' =>
      match candidate x num den n k with
      | Some sp => sp
      | None => shortest fuel' x num den n (k + 1)
      end
  end.

(** Digits [s] and exponent [p] with [m * 2^e] printed as [s * 10^p],
    [s] having as few digits as possible (at most 17 are ever needed). *)
Definition shortest_decimal (m : positive) (e : Z) : Z * Z :=
  let num := Zpos m * 2 ^ (Z.max e 0) in
  let den := 2 ^ (Z.max (- e) 0) in
  let n := decimal_exponent num den in
  let '(s, p) := shortest 17 (S754_finite false m e) num den n 1 in
  strip_zeros 20 s p.

Definition substring_from (n : nat) (s : string) : string :=
  String.substring n (Nat.sub (String.length s) n) s.

(** Steps 6 to 10 of Number::toString for the digit string [ds] of
    length [k] and the exponent [n]. *)
Definition format_decimal (ds : string) (n : Z) : string :=
  let k := Z.of_nat (String.length ds) in
  if (k <=? n) && (n <=? 21) then
    ds +:+ zeros (Z.to_nat (n - k))
  else if (0 <? n) && (n <=? 21) then
    String.substring 0 (Z.to_nat n) ds +:+ "." +:+ substring_from (Z.to_nat n) ds
  else if (-6 <? n) && (n <=? 0) then
    "0." +:+ zeros (Z.to_nat (- n)) +:+ ds
  else
    let e := n - 1 in
    let sign := if e <? 0 then "-" else "+" in
    if k =? 1 then ds +:+ "e" +:+ sign +:+ digits (Z.abs e)
    else String.substring 0 1 ds +:+ "." +:+ substring_from 1 ds
           +:+ "e" +:+ sign +:+ digits (Z.abs e).

Definition toString (x : number) : string :=
  match x with
  | S754_nan => "NaN"
  | S754_zero _ => "0"
  | S754_infinity neg => if neg then "-Infinity" else "Infinity"
  | S754_finite neg m e =>
      let '(s, p) := shortest_decimal m e in
      let ds := digits s in
      (if neg then "-" else "") +:+
      format_decimal ds (Z.of_nat (String.length ds) + p)
  end.

(** *** StringToNumber: what [Number(s)] does on a string *)

(** White space and line terminators among the code units below 256:
    TAB, LF, VT, FF, CR, SP and NBSP. *)
Definition is_space (c : ascii) : bool :=
  let n := Z.of_N (N_of_ascii c) in
  ((9 <=? n) && (n <=? 13)) || (n =? 32) || (n =? 160).

Fixpoint trim_start (s : string) : string :=
  match s with
  | String c s' => if is_space c then trim_start s' else s
  | EmptyString => s
  end.

Fixpoint trim_end (s : string) : string :=
  match s with
  | String c s' =>
      match trim_end s' with
      | EmptyString => if is_space c then EmptyString else String c EmptyString
      | t => String c t
      end
  | EmptyString => s
  end.

Definition digit_in (base : Z) (c : ascii) : option Z :=
  let n := Z.of_N (N_of_ascii c) in
  let v := if (48 <=? n) && (n <=? 57) then n - 48
           else if (97 <=? n) && (n <=? 102) then n - 87
           else if (65 <=? n) && (n <=? 70) then n - 55
           else base in
  if v <? base then Some v else None.

(** Reads the longest prefix of digits, accumulating onto [acc]; returns
    the value, the number of digits read and the rest of the string. *)
Fixpoint read_digits (base : Z) (s : string) (acc len : Z) : Z * Z * string :=
  match s with
  | String c s' =>
      match digit_in base c with
      | Some d => read_digits base s' (acc * base + d) (len + 1)
      | None => (acc, len, s)
      end
  | EmptyString => (acc, len, s)
  end.

Definition read_sign (s : string) : bool * string :=
  match s with
  | String "-" r => (true, r)
  | String "+" r => (false, r)
  | _ => (false, s)
  end.

(** ExponentPart, or nothing, up to the end of the string. *)
Definition exponent_part (s : string) : option Z :=
  match s with
  | EmptyString => Some 0
  | String c r =>
      if (Ascii.eqb c "e") || (Ascii.eqb c "E") then
        let '(neg, r') := read_sign r in
        match read_digits 10 r' 0 0 with
        | (v, len, EmptyString) =>
            if 0 <? len then Some (if neg then - v else v) else None
        | _ => None
        end
      else None
  end.

(** StrUnsignedDecimalLiteral other than [Infinity]: digits with an
    optional fraction and exponent, at least one digit around the dot. *)
Definition unsigned_decimal (neg : bool) (s : string) : number :=
  let '(i, ilen, r) := read_digits 10 s 0 0 in
  let '(f, flen, r') :=
    match r with
    | String "." r1 => read_digits 10 r1 i 0
    | _ => (i, 0, r)
    end in
  if ilen + flen =? 0 then NaN
  else
    match exponent_part r' with
    | Some e => of_decimal neg f (e - flen)
    | None => NaN
    end.

(** [0x], [0o] and [0b] integers: no sign, at least one digit. *)
Definition non_decimal (base : Z) (s : string) : number :=
  match read_digits base s 0 0 with
  | (v, len, EmptyString) => if 0 <? len then of_Z v else NaN
  | _ => NaN
  end.

Definition radix_of_prefix (c : ascii) : option Z :=
  if (Ascii.eqb c "x") || (Ascii.eqb c "X") then Some 16
  else if (Ascii.eqb c "o") || (Ascii.eqb c "O") then Some 8
  else if (Ascii.eqb c "b") || (Ascii.eqb c "B") then Some 2
  else None.

Definition numeric_literal (s : string) : number :=
  let decimal :=
    let '(neg, r) := read_sign s in
    if String.eqb r "Infinity" then S754_infinity neg
    else unsigned_decimal neg r in
  match s with
  | String "0" (String c r) =>
      match radix_of_prefix c with
      | Some base => non_decimal base r
      | None => decimal
      end
  | _ => decimal
  end.

Definition ofString (s : string) : number :=
  match trim_end (trim_start s) with
  | EmptyString => S754_zero false
  | t => numeric_literal t
  end.

End JsNumber.

Import JsNumber.

(** [Array.prototype.join] on an array of strings. *)
Definition join (sep : string) (xs : list string) : string :=
  String.concat sep xs.

(* ===================================================================== *)
(** ** calc.ts: the expression builder *)
(* ===================================================================== *)

Module Calc.

Inductive Operator := Plus | Minus | Times | Divide.

(** ['calc' | NonCalcFunctions] *)
Inductive Fn :=
| F_calc
| F_min | F_max | F_clamp
| F_acos | F_asin | F_atan | F_atan2 | F_cos | F_sin | F_tan
| F_sqrt | F_log | F_exp | F_abs | F_pow | F_round | F_ceil | F_floor.

Definition Operator_text (o : Operator) : string :=
  match o with Plus => "+" | Minus => "-" | Times => "*" | Divide => "/" end.

Definition Fn_text (f : Fn) : string :=
  match f with
  | F_calc => "calc"
  | F_min => "min" | F_max => "max" | F_clamp => "clamp"
  | F_acos => "acos" | F_asin => "asin" | F_atan => "atan"
  | F_atan2 => "atan2" | F_cos => "cos" | F_sin => "sin" | F_tan => "tan"
  | F_sqrt => "sqrt" | F_log => "log" | F_exp => "exp" | F_abs => "abs"
  | F_pow => "pow" | F_round => "round" | F_ceil => "ceil"
  | F_floor => "floor"
  end.

(** An instance of the class: the rendered operands, the operator and
    the wrapping function. *)
Record t := mk {
  expressions : list string;
  operator : option Operator;
  fn : Fn
}.

(** [string | number | Calc] *)
Inductive Operand :=
| OStr (s : string)
| ONum (n : number)
| OCalc (c : t).

Definition isTerm (op : t) : bool :=
  match operator op with
  | Some Plus | Some Minus => true
  | _ => false
  end.

Definition isFactor (op : t) : bool :=
  match operator op with
  | Some Times | Some Divide => true
  | _ => false
  end.

Definition isFn (op : t) : bool :=
  match fn op with F_calc => false | _ => true end.

Definition build (this : t) : string :=
  match operator this with
  | None => join ", " (expressions this)
  | Some o => join (" " +:+ Operator_text o +:+ " ") (expressions this)
  end.

Definition toString (this : t) : string :=
  Fn_text (fn this) +:+ "(" +:+ build this +:+ ")".

(** The callback the constructor maps over its operands.  For a string
    or a number both the second branch and the final [return] are the
    operand's own [toString()]. *)
Definition coerce (thisIsFactor thisIsFn : bool) (e : Operand) : string :=
  match e with
  | OCalc c =>
      if thisIsFactor && isTerm c then "(" +:+ build c +:+ ")"
      else if thisIsFn || isFn c then toString c
      else build c
  | OStr s => s
  | ONum n => JsNumber.toString n
  end.

(** The constructor.  [operator] and [fn] are parameter properties, set
    before the body reads them through [this]. *)
Definition new (exprs : list Operand) (operator : option Operator) (fn : Fn) : t :=
  let this := mk [] operator fn in
  let thisIsFactor := isFactor this in
  let thisIsFn := isFn this in
  mk (coerce thisIsFactor thisIsFn <$> exprs) operator fn.

Definition add (this : t) (operands : list Operand) : t :=
  new (OCalc this :: operands) (Some Plus) F_calc.

Definition subtract (this : t) (operands : list Operand) : t :=
  new (OCalc this :: operands) (Some Minus) F_calc.

Definition multiply (this : t) (operands : list Operand) : t :=
  new (OCalc this :: operands) (Some Times) F_calc.

Definition divide (this : t) (operands : list Operand) : t :=
  new (OCalc this :: operands) (Some Divide) F_calc.

Definition negate (this : t) : t :=
  new [ONum (of_Z (-1)); OCalc this] (Some Times) F_calc.

Definition min (this : t) (operands : list Operand) : t :=
  new (OCalc this :: operands) None F_min.

Definition max (this : t) (operands : list Operand) : t :=
  new (OCalc this :: operands) None F_max.

Definition clamp (this : t) (min max : Operand) : t :=
  new [OCalc this; min; max] None F_clamp.

Definition acos (this : t) : t := new [OCalc this] None F_acos.
Definition asin (this : t) : t := new [OCalc this] None F_asin.
Definition atan (this : t) : t := new [OCalc this] None F_atan.
Definition atan2 (this : t) (y : Operand) : t :=
  new [OCalc this; y] None F_atan2.
Definition cos (this : t) : t := new [OCalc this] None F_cos.
Definition sin (this : t) : t := new [OCalc this] None F_sin.
Definition tan (this : t) : t := new [OCalc this] None F_tan.
Definition sqrt (this : t) : t := new [OCalc this] None F_sqrt.

Definition log (this : t) (base : option Operand) : t :=
  match base with
  | Some b => new [OCalc this; b] None F_log
  | None => new [OCalc this] None F_log
  end.

Definition exp (this : t) : t := new [OCalc this] None F_exp.
Definition abs (this : t) : t := new [OCalc this] None F_abs.
Definition pow (this : t) (exponent : Operand) : t :=
  new [OCalc this; exponent] None F_pow.
Definition round (this : t) : t := new [OCalc this] None F_round.
Definition ceil (this : t) : t := new [OCalc this] None F_ceil.
Definition floor (this : t) : t := new [OCalc this] None F_floor.

End Calc.

(** The functions the file exports. *)
Module calc_ts.
Import Calc.

Definition calc (x : Operand) : Calc.t := new [x] None F_calc.

Definition e (factor : number) : Calc.t :=
  if strict_eq factor (of_Z 1) then new [OStr "e"] None F_calc
  else new [ONum factor; OStr "e"] (Some Times) F_calc.

Definition pi (factor : number) : Calc.t :=
  if strict_eq factor (of_Z 1) then new [OStr "pi"] None F_calc
  else new [ONum factor; OStr "pi"] (Some Times) F_calc.

Definition inf (isNegative : bool) : Calc.t :=
  if isNegative then new [OStr "-infinity"] None F_calc
  else new [OStr "infinity"] None F_calc.

Definition nan : Calc.t := new [OStr "NaN"] None F_calc.

Definition min (operands : list Operand) : Calc.t := new operands None F_min.
Definition max (operands : list Operand) : Calc.t := new operands None F_max.
Definition clamp (min value max : Operand) : Calc.t :=
  new [min; value; max] None F_clamp.
Definition acos (value : Operand) : Calc.t := new [value] None F_acos.
Definition asin (value : Operand) : Calc.t := new [value] None F_asin.
Definition atan (value : Operand) : Calc.t := new [value] None F_atan.
Definition atan2 (x y : Operand) : Calc.t := new [x; y] None F_atan2.
Definition cos (value : Operand) : Calc.t := new [value] None F_cos.
Definition sin (value : Operand) : Calc.t := new [value] None F_sin.
Definition tan (value : Operand) : Calc.t := new [value] None F_tan.
Definition sqrt (value : Operand) : Calc.t := new [value] None F_sqrt.
Definition log (value : Operand) (base : option Operand) : Calc.t :=
  match base with
  | Some b => new [value; b] None F_log
  | None => new [value] None F_log
  end.
Definition exp (value : Operand) : Calc.t := new [value] None F_exp.
Definition abs (value : Operand) : Calc.t := new [value] None F_abs.
Definition pow (base exponent : Operand) : Calc.t :=
  new [base; exponent] None F_pow.
Definition round (value : Operand) : Calc.t := new [value] None F_round.
Definition ceil (value : Operand) : Calc.t := new [value] None F_ceil.
Definition floor (value : Operand) : Calc.t := new [value] None F_floor.

(** [random(scale, offset)], given the draw [r] that [Math.random()]
    returns. *)
Definition random (r scale offset : number) : Calc.t :=
  let val := JsNumber.add (JsNumber.mul r scale) offset in
  new [ONum val] None F_calc.

End calc_ts.

(** Conversions the runtime applies to an operand. *)
Definition Operand_toString (e : Calc.Operand) : string :=
  match e with
  | Calc.OStr s => s
  | Calc.ONum n => JsNumber.toString n
  | Calc.OCalc c => Calc.toString c
  end.

(** [Number(e)]: an object is converted through its [toString()]. *)
Definition Operand_toNumber (e : Calc.Operand) : number :=
  match e with
  | Calc.OStr s => JsNumber.ofString s
  | Calc.ONum n => n
  | Calc.OCalc c => JsNumber.ofString (Calc.toString c)
  end.

(** [e === 0] *)
Definition Operand_is_zero (e : Calc.Operand) : bool :=
  match e with
  | Calc.ONum n => strict_eq n (of_Z 0)
  | _ => false
  end.

(* ===================================================================== *)
(** ** transform.ts *)
(* ===================================================================== *)

Module Transform.
Import Calc.

Definition coerceValue (value : Operand) (unit : string) : string :=
  if Operand_is_zero value then "0"
  else if isNaN (Operand_toNumber value) then Operand_toString value
  else JsNumber.toString (Operand_toNumber value) +:+ unit.

Record t := mk { transforms : list string }.

Definition new (transforms : option (list string)) : t :=
  mk (default [] transforms).

Definition num (x : number) : string := JsNumber.toString x.

Definition matrix (this : t) (a1 b1 a2 b2 a4 b4 : number) : t :=
  mk (transforms this ++
      ["matrix(" +:+ num a1 +:+ ", " +:+ num b1 +:+ ", " +:+ num a2 +:+ ", "
         +:+ num b2 +:+ ", " +:+ num a4 +:+ ", " +:+ num b4 +:+ ")"]).

Definition matrix3d (this : t)
    (a1 b1 c1 d1 a2 b2 c2 d2 a3 b3 c3 d3 a4 b4 c4 d4 : number) : t :=
  mk (transforms this ++
      ["matrix3d(" +:+ num a1 +:+ ", " +:+ num b1 +:+ ", " +:+ num c1 +:+ ", "
         +:+ num d1 +:+ ", " +:+ num a2 +:+ ", " +:+ num b2 +:+ ", "
         +:+ num c2 +:+ ", " +:+ num d2 +:+ ", " +:+ num a3 +:+ ", "
         +:+ num b3 +:+ ", " +:+ num c3 +:+ ", " +:+ num d3 +:+ ", "
         +:+ num a4 +:+ ", " +:+ num b4 +:+ ", " +:+ num c4 +:+ ", "
         +:+ num d4 +:+ ")"]).

Definition perspective (this : t) (value : Operand) : t :=
  mk (transforms this ++ ["perspective(" +:+ coerceValue value "px" +:+ ")"]).

Definition rotate (this : t) (value : Operand) : t :=
  mk (transforms this ++ ["rotate(" +:+ coerceValue value "deg" +:+ ")"]).

Definition rotate3d (this : t) (x y z : number) (angle : Operand) : t :=
  mk (transforms this ++
      ["rotate3d(" +:+ num x +:+ ", " +:+ num y +:+ ", " +:+ num z +:+ ", "
         +:+ coerceValue angle "deg" +:+ ")"]).

Definition rotateX (this : t) (value : Operand) : t :=
  mk (transforms this ++ ["rotateX(" +:+ coerceValue value "deg" +:+ ")"]).

Definition rotateY (this : t) (value : Operand) : t :=
  mk (transforms this ++ ["rotateY(" +:+ coerceValue value "deg" +:+ ")"]).

Definition rotateZ (this : t) (value : Operand) : t :=
  mk (transforms this ++ ["rotateZ(" +:+ coerceValue value "deg" +:+ ")"]).

(** [y] defaults to [x]. *)
Definition scale (this : t) (x : Operand) (y : option Operand) : t :=
  mk (transforms this ++
      ["scale(" +:+ Operand_toString x +:+ ", "
         +:+ Operand_toString (default x y) +:+ ")"]).

Definition scale3d (this : t) (x y z : number) : t :=
  mk (transforms this ++
      ["scale3d(" +:+ num x +:+ ", " +:+ num y +:+ ", " +:+ num z +:+ ")"]).

Definition scaleX (this : t) (value : number) : t :=
  mk (transforms this ++ ["scaleX(" +:+ num value +:+ ")"]).

Definition scaleY (this : t) (value : number) : t :=
  mk (transforms this ++ ["scaleY(" +:+ num value +:+ ")"]).

Definition scaleZ (this : t) (value : number) : t :=
  mk (transforms this ++ ["scaleZ(" +:+ num value +:+ ")"]).

(** [y] defaults to the number 0. *)
Definition skew (this : t) (x : Operand) (y : option Operand) : t :=
  mk (transforms this ++
      ["skew(" +:+ coerceValue x "deg" +:+ ", "
         +:+ coerceValue (default (ONum (of_Z 0)) y) "deg" +:+ ")"]).

Definition skewX (this : t) (value : Operand) : t :=
  mk (transforms this ++ ["skewX(" +:+ coerceValue value "deg" +:+ ")"]).

Definition skewY (this : t) (value : Operand) : t :=
  mk (transforms this ++ ["skewY(" +:+ coerceValue value "deg" +:+ ")"]).

(** [y] defaults to the number 0. *)
Definition translate (this : t) (x : Operand) (y : option Operand) : t :=
  mk (transforms this ++
      ["translate(" +:+ coerceValue x "px" +:+ ", "
         +:+ coerceValue (default (ONum (of_Z 0)) y) "px" +:+ ")"]).

Definition translate3d (this : t) (x y z : Operand) : t :=
  mk (transforms this ++
      ["translate3d(" +:+ coerceValue x "px" +:+ ", " +:+ coerceValue y "px"
         +:+ ", " +:+ coerceValue z "px" +:+ ")"]).

Definition translateX (this : t) (value : Operand) : t :=
  mk (transforms this ++ ["translateX(" +:+ coerceValue value "px" +:+ ")"]).

Definition translateY (this : t) (value : Operand) : t :=
  mk (transforms this ++ ["translateY(" +:+ coerceValue value "px" +:+ ")"]).

Definition translateZ (this : t) (value : Operand) : t :=
  mk (transforms this ++ ["translateZ(" +:+ coerceValue value "px" +:+ ")"]).

Definition toString (this : t) : string := join " " (transforms this).

Definition transform : t := new None.

End Transform.

(* ===================================================================== *)
(** ** Primitive values, objects and the heap *)
(* ===================================================================== *)

(** The values a configuration field can hold. *)
Inductive Value :=
| VUndefined
| VStr (s : string)
| VNum (n : number).

(** [Number(v)] *)
Definition Value_toNumber (v : Value) : number :=
  match v with
  | VUndefined => NaN
  | VStr s => JsNumber.ofString s
  | VNum n => n
  end.

(** [Boolean(v)] *)
Definition Value_toBoolean (v : Value) : bool :=
  match v with
  | VUndefined => false
  | VStr s => negb (String.eqb s "")
  | VNum n => negb (isNaN n || strict_eq n (of_Z 0))
  end.

(** The text [join] gives an array element. *)
Definition Value_toString (v : Value) : string :=
  match v with
  | VUndefined => ""
  | VStr s => s
  | VNum n => JsNumber.toString n
  end.

Module Heap.

Abbreviation loc := nat.

(** An object: its own properties.  A missing key reads [undefined]. *)
Abbreviation obj := (gmap string Value).

Definition get (o : obj) (k : string) : Value := default VUndefined (o !! k).

Record heap := mk {
  objects : gmap loc obj;
  next : loc
}.

Definition read (h : heap) (l : loc) : obj := default ∅ (objects h !! l).

(** An object literal: a new object at a location not used before. *)
Definition alloc (o : obj) (h : heap) : loc * heap :=
  (next h, mk (<[next h := o]> (objects h)) (S (next h))).

(** [Object.assign(target, source)]: every own property of [source] is
    written into the object at [target]. *)
Definition assign (target : loc) (source : obj) (h : heap) : heap :=
  mk (<[target := source ∪ read h target]> (objects h)) (next h).

(** Computations that use the heap. *)
Definition M (A : Type) : Type := heap -> A * heap.
Definition ret {A} (a : A) : M A := fun h => (a, h).
Definition bind {A B} (m : M A) (f : A -> M B) : M B :=
  fun h => let '(a, h') := m h in f a h'.

End Heap.

Notation "x <- m ;; k" := (Heap.bind m (fun x => k))
  (at level 100, m at next level, right associativity).

(* ===================================================================== *)
(** ** types/util.ts and functions/timing.ts *)
(* ===================================================================== *)

Definition DEFAULT_TIME_UNIT : string := "ms".

(** [value] is typed [string | number]. *)
Definition coerceToUnit (value : Value) (unit : string) : Value :=
  let asNumber := Value_toNumber value in
  if isNaN asNumber then value
  else VStr (JsNumber.toString asNumber +:+ unit).

Definition coerceToTime (value : Value) (unit : option string) : Value :=
  coerceToUnit value (default DEFAULT_TIME_UNIT unit).

Definition cubicBezier (p1 p2 p3 p4 : number) : string :=
  "cubic-bezier(" +:+ JsNumber.toString p1 +:+ ", " +:+ JsNumber.toString p2
    +:+ ", " +:+ JsNumber.toString p3 +:+ ", " +:+ JsNumber.toString p4 +:+ ")".

(** The module-level objects exist before any builder does: they occupy
    the first locations of the heap. *)
Definition transition_defaultConfig : Heap.loc := 0%nat.
Definition animation_config : Heap.loc := 1%nat.
Definition first_free : Heap.loc := 2%nat.

Definition initial_heap : Heap.heap :=
  Heap.mk
    (<[transition_defaultConfig :=
         <["transitionDuration" := VStr "300ms"]>
         (<["transitionTimingFunction" :=
              VStr (cubicBezier (of_decimal false 4 (-1)) (of_Z 0)
                                (of_decimal false 2 (-1)) (of_Z 1))]> ∅)]>
     (<[animation_config :=
         <["animationDuration" := VStr "300ms"]>
         (<["animationTimingFunction" := VStr "cubic-bezier(0.4, 0, 0.2, 1)"]> ∅)]>
      ∅))
    first_free.

(** [[...].filter(Boolean).join(' ')] *)
Definition render_fields (fields : list Value) : string :=
  join " " (Value_toString <$> List.filter Value_toBoolean fields).

(* ===================================================================== *)
(** ** transition.ts *)
(* ===================================================================== *)

Module Transition.
Import Heap.

Definition defaultConfig : loc := transition_defaultConfig.

Definition transitionConfigDefaults (newConfig : obj) : M unit :=
  fun h => (tt, assign defaultConfig newConfig h).

(** An instance: the property names, a reference to its configuration
    object and the transitions chained with [and]. *)
#[warnings="-register-all"]
Inductive t :=
| mk (properties : list string) (configuration : loc) (otherTransitions : list t).

Definition properties (this : t) : list string :=
  match this with mk p _ _ => p end.
Definition configuration (this : t) : loc :=
  match this with mk _ c _ => c end.
Definition otherTransitions (this : t) : list t :=
  match this with mk _ _ o => o end.

(** The constructor; the defaults are [{ ...defaultConfig }] and [[]]. *)
Definition new (properties : list string) (configuration : option loc)
    (otherTransitions : option (list t)) : M t :=
  c <- match configuration with
       | Some c => ret c
       | None => fun h => alloc (read h defaultConfig) h
       end ;;
  ret (mk properties c (default [] otherTransitions)).

Definition duration (this : t) (duration : Value) : M t :=
  c <- (fun h => alloc (<["transitionDuration" := coerceToTime duration None]>
                          (read h (configuration this))) h) ;;
  new (properties this) (Some c) (Some (otherTransitions this)).

Definition timingFunction (this : t) (timingFunction : Value) : M t :=
  c <- (fun h => alloc (<["transitionTimingFunction" := timingFunction]>
                          (read h (configuration this))) h) ;;
  new (properties this) (Some c) (Some (otherTransitions this)).

Definition delay (this : t) (delay : Value) : M t :=
  c <- (fun h => alloc (<["transitionDelay" := coerceToTime delay None]>
                          (read h (configuration this))) h) ;;
  new (properties this) (Some c) (Some (otherTransitions this)).

Definition and (this : t) (transitions : list t) : M t :=
  new (properties this) (Some (configuration this))
      (Some (otherTransitions this ++ transitions)%list).

Definition cfg (o : obj) : string :=
  render_fields [get o "transitionDuration";
                 get o "transitionTimingFunction";
                 get o "transitionDelay"].

Fixpoint toString (h : heap) (this : t) : string :=
  match this with
  | mk properties configuration otherTransitions =>
      let cfg := cfg (read h configuration) in
      let self :=
        join ", " ((fun property => property +:+ " " +:+ cfg) <$> properties) in
      let other := toString h <$> otherTransitions in
      join ", " ([self] ++ other)%list
  end.

Definition transition (properties : list string) : M t :=
  new properties None None.

End Transition.

(* ===================================================================== *)
(** ** animation.ts *)
(* ===================================================================== *)

Module Animation.
Import Heap.

Definition config : loc := animation_config.

Definition animationConfigDefaults (newConfig : obj) : M unit :=
  fun h => (tt, assign config newConfig h).

#[warnings="-register-all"]
Inductive t :=
| mk (keyframes : list string) (configuration : loc) (otherAnimations : list t).

Definition keyframes (this : t) : list string :=
  match this with mk k _ _ => k end.
Definition configuration (this : t) : loc :=
  match this with mk _ c _ => c end.
Definition otherAnimations (this : t) : list t :=
  match this with mk _ _ o => o end.

(** The constructor; the defaults are [{ ...config }] and [[]]. *)
Definition new (keyframes : list string) (configuration : option loc)
    (otherAnimations : option (list t)) : M t :=
  c <- match configuration with
       | Some c => ret c
       | None => fun h => alloc (read h config) h
       end ;;
  ret (mk keyframes c (default [] otherAnimations)).

Definition duration (this : t) (duration : Value) : M t :=
  c <- (fun h => alloc (<["animationDuration" := coerceToTime duration None]>
                          (read h (configuration this))) h) ;;
  new (keyframes this) (Some c) (Some (otherAnimations this)).

Definition timingFunction (this : t) (timingFunction : Value) : M t :=
  c <- (fun h => alloc (<["animationTimingFunction" := timingFunction]>
                          (read h (configuration this))) h) ;;
  new (keyframes this) (Some c) (Some (otherAnimations this)).

Definition delay (this : t) (delay : Value) : M t :=
  c <- (fun h => alloc (<["animationDelay" := coerceToTime delay None]>
                          (read h (configuration this))) h) ;;
  new (keyframes this) (Some c) (Some (otherAnimations this)).

Definition iterationCount (this : t) (iterationCount : Value) : M t :=
  c <- (fun h => alloc (<["animationIterationCount" := iterationCount]>
                          (read h (configuration this))) h) ;;
  new (keyframes this) (Some c) (Some (otherAnimations this)).

Definition direction (this : t) (direction : Value) : M t :=
  c <- (fun h => alloc (<["animationDirection" := direction]>
                          (read h (configuration this))) h) ;;
  new (keyframes this) (Some c) (Some (otherAnimations this)).

Definition fillMode (this : t) (fillMode : Value) : M t :=
  c <- (fun h => alloc (<["animationFillMode" := fillMode]>
                          (read h (configuration this))) h) ;;
  new (keyframes this) (Some c) (Some (otherAnimations this)).

Definition playState (this : t) (playState : Value) : M t :=
  c <- (fun h => alloc (<["animationPlayState" := playState]>
                          (read h (configuration this))) h) ;;
  new (keyframes this) (Some c) (Some (otherAnimations this)).

Definition and (this : t) (animations : list t) : M t :=
  new (keyframes this) (Some (configuration this))
      (Some (otherAnimations this ++ animations)%list).

Definition cfg (o : obj) : string :=
  render_fields [get o "animationDuration";
                 get o "animationTimingFunction";
                 get o "animationDelay";
                 get o "animationIterationCount";
                 get o "animationDirection";
                 get o "animationFillMode";
                 get o "animationPlayState"].

Fixpoint toString (h : heap) (this : t) : string :=
  match this with
  | mk keyframes configuration otherAnimations =>
      let cfg := cfg (read h configuration) in
      let self :=
        join ", " ((fun keyframe => cfg +:+ " " +:+ keyframe) <$> keyframes) in
      let other := toString h <$> otherAnimations in
      join ", " ([self] ++ other)%list
  end.

Definition animation (keyframes : list string) : M t :=
  new keyframes None None.

End Animation.

(* ===================================================================== *)
(** ** The other coercions of types/util.ts, the timing functions, [px]
       and spacing.ts *)
(* ===================================================================== *)

Definition DEFAULT_LENGTH_UNIT : string := "px".
Definition DEFAULT_ANGLE_UNIT : string := "deg".
Definition DEFAULT_FREQUENCY_UNIT : string := "Hz".
Definition DEFAULT_RESOLUTION_UNIT : string := "dpi".

Definition coerceToLength (value : Value) (unit : option string) : Value :=
  coerceToUnit value (default DEFAULT_LENGTH_UNIT unit).

Definition coerceToAngle (value : Value) (unit : option string) : Value :=
  coerceToUnit value (default DEFAULT_ANGLE_UNIT unit).

Definition coerceToFrequency (value : Value) (unit : option string) : Value :=
  coerceToUnit value (default DEFAULT_FREQUENCY_UNIT unit).

Definition coerceToResolution (value : Value) (unit : option string) : Value :=
  coerceToUnit value (default DEFAULT_RESOLUTION_UNIT unit).

(** [linear(...args)]: the arguments are numbers or percentage strings. *)
Definition linear (args : list Value) : string :=
  "linear(" +:+ join ", " (Value_toString <$> args) +:+ ")".

Inductive StepPosition :=
| jump_start | jump_end | jump_none | jump_both | start | end_.

Definition StepPosition_text (p : StepPosition) : string :=
  match p with
  | jump_start => "jump-start"
  | jump_end => "jump-end"
  | jump_none => "jump-none"
  | jump_both => "jump-both"
  | start => "start"
  | end_ => "end"
  end.

Definition steps (n : number) (position : StepPosition) : string :=
  "steps(" +:+ JsNumber.toString n +:+ ", " +:+ StepPosition_text position +:+ ")".

(** [px(value = 1)] of the unit helpers. *)
Definition px (value : option number) : string :=
  JsNumber.toString (default (of_Z 1) value) +:+ "px".

Module Spacing.

(** The module-level variable [unitPx] is the state. *)
Definition unitPx_initial : number := of_Z 4.

Definition configureSpacingDefaults (newUnitPx : option number) (unitPx : number)
    : number :=
  match newUnitPx with
  | Some u => u
  | None => unitPx
  end.

(** [px((value ?? 1) * unitPx)] *)
Definition spacing (value : option number) (unitPx : number) : string :=
  px (Some (JsNumber.mul (default (of_Z 1) value) unitPx)).

End Spacing.

(* ===================================================================== *)
(** ** The earlier transition.ts *)
(* ===================================================================== *)

(** [`${v}`] *)
Definition Value_text (v : Value) : string :=
  match v with
  | VUndefined => "undefined"
  | VStr s => s
  | VNum n => JsNumber.toString n
  end.

(** [v === undefined] *)
Definition Value_is_undefined (v : Value) : bool :=
  match v with VUndefined => true | _ => false end.

Module LegacyTransition.

(** The module-level variables [defaultDuration] and [defaultEasing]. *)
Record defaults := Defaults {
  defaultDuration : Value;
  defaultEasing : Value
}.

Definition initial_defaults : defaults :=
  Defaults (VStr "300ms") (VStr "cubic-bezier(0.4, 0, 0.2, 1)").

(** A field the caller leaves out is [undefined]. *)
Definition configureTransitionDefaults (duration easing : Value) (st : defaults)
    : defaults :=
  let st := if Value_is_undefined duration then st
            else Defaults duration (defaultEasing st) in
  if Value_is_undefined easing then st
  else Defaults (defaultDuration st) easing.

#[warnings="-register-all"]
Inductive t :=
| mk (properties : list string) (durationValue easingValue : Value)
     (otherTransitions : list t).

Definition properties (this : t) : list string :=
  match this with mk p _ _ _ => p end.
Definition durationValue (this : t) : Value :=
  match this with mk _ d _ _ => d end.
Definition easingValue (this : t) : Value :=
  match this with mk _ _ e _ => e end.
Definition otherTransitions (this : t) : list t :=
  match this with mk _ _ _ o => o end.

(** The constructor: a parameter given [undefined] takes its default, read
    from the module-level variables at the time of the call. *)
Definition new (st : defaults) (properties : list string)
    (durationValue easingValue : Value) (otherTransitions : option (list t)) : t :=
  mk properties
     (if Value_is_undefined durationValue then defaultDuration st else durationValue)
     (if Value_is_undefined easingValue then defaultEasing st else easingValue)
     (default [] otherTransitions).

Definition duration (st : defaults) (this : t) (duration : Value) : t :=
  let numberDuration := Value_toNumber duration in
  new st (properties this)
      (if isNaN numberDuration then duration
       else VStr (JsNumber.toString numberDuration +:+ "ms"))
      (easingValue this)
      (Some (otherTransitions this)).

Definition easing (st : defaults) (this : t) (easing : Value) : t :=
  new st (properties this) (durationValue this) easing
      (Some (otherTransitions this)).

Definition and (st : defaults) (this : t) (transitions : list t) : t :=
  new st (properties this) (durationValue this) (easingValue this)
      (Some (otherTransitions this ++ transitions)%list).

Fixpoint toString (this : t) : string :=
  match this with
  | mk properties durationValue easingValue otherTransitions =>
      let self :=
        join ", " ((fun property =>
                      property +:+ " " +:+ Value_text durationValue
                        +:+ " " +:+ Value_text easingValue) <$> properties) in
      let other := toString <$> otherTransitions in
      join ", " ([self] ++ other)%list
  end.

Definition transition (st : defaults) (properties : list string) : t :=
  new st properties VUndefined VUndefined None.

End LegacyTransition.

(* ===================================================================== *)
(** ** Vocabulary of the statements *)
(* ===================================================================== *)

(** The arithmetic method that builds a node with operator [o]. *)
Definition arithmetic (o : Calc.Operator) : Calc.t -> list Calc.Operand -> Calc.t :=
  match o with
  | Calc.Plus => Calc.add
  | Calc.Minus => Calc.subtract
  | Calc.Times => Calc.multiply
  | Calc.Divide => Calc.divide
  end.

Definition multiplicative (o : Calc.Operator) : bool :=
  match o with Calc.Times | Calc.Divide => true | _ => false end.

Definition separator (o : Calc.Operator) : string :=
  " " +:+ Calc.Operator_text o +:+ " ".

(** [this.m(...xs1).m(...xs2)...] for one arithmetic method [m]. *)
Definition chain (o : Calc.Operator) (this : Calc.t)
    (calls : list (list Calc.Operand)) : Calc.t :=
  fold_left (arithmetic o) calls this.

(** Every call of the constructor in the file passes an operator and the
    default function name, or a function name and no operator. *)
Definition api_shape (c : Calc.t) : Prop :=
  Calc.operator c = None \/ Calc.fn c = Calc.F_calc.

(** A node whose operator is [+] or [-]. *)
Definition additive (c : Calc.t) : Prop :=
  Calc.operator c = Some Calc.Plus \/ Calc.operator c = Some Calc.Minus.

(** A node wrapped in a function other than [calc]. *)
Definition named_function (c : Calc.t) : Prop := Calc.fn c <> Calc.F_calc.

(** A call of one of the named-function methods, with the arguments the
    caller supplies. *)
Inductive FnCall :=
| call_min (operands : list Calc.Operand)
| call_max (operands : list Calc.Operand)
| call_clamp (min max : Calc.Operand)
| call_acos | call_asin | call_atan
| call_atan2 (y : Calc.Operand)
| call_cos | call_sin | call_tan | call_sqrt
| call_log (base : option Calc.Operand)
| call_exp | call_abs
| call_pow (exponent : Calc.Operand)
| call_round | call_ceil | call_floor.

Definition fn_method (m : FnCall) (this : Calc.t) : Calc.t :=
  match m with
  | call_min operands => Calc.min this operands
  | call_max operands => Calc.max this operands
  | call_clamp min max => Calc.clamp this min max
  | call_acos => Calc.acos this
  | call_asin => Calc.asin this
  | call_atan => Calc.atan this
  | call_atan2 y => Calc.atan2 this y
  | call_cos => Calc.cos this
  | call_sin => Calc.sin this
  | call_tan => Calc.tan this
  | call_sqrt => Calc.sqrt this
  | call_log base => Calc.log this base
  | call_exp => Calc.exp this
  | call_abs => Calc.abs this
  | call_pow exponent => Calc.pow this exponent
  | call_round => Calc.round this
  | call_ceil => Calc.ceil this
  | call_floor => Calc.floor this
  end.

Definition fn_arguments (m : FnCall) : list Calc.Operand :=
  match m with
  | call_min operands | call_max operands => operands
  | call_clamp min max => [min; max]
  | call_atan2 y => [y]
  | call_log base => option_list base
  | call_pow exponent => [exponent]
  | _ => []
  end.

(** The transform methods that take one value and coerce it to a unit. *)
Inductive UnitMethod :=
| m_perspective
| m_rotate | m_rotateX | m_rotateY | m_rotateZ
| m_skewX | m_skewY
| m_translateX | m_translateY | m_translateZ.

Definition unit_method (m : UnitMethod) : Transform.t -> Calc.Operand -> Transform.t :=
  match m with
  | m_perspective => Transform.perspective
  | m_rotate => Transform.rotate
  | m_rotateX => Transform.rotateX
  | m_rotateY => Transform.rotateY
  | m_rotateZ => Transform.rotateZ
  | m_skewX => Transform.skewX
  | m_skewY => Transform.skewY
  | m_translateX => Transform.translateX
  | m_translateY => Transform.translateY
  | m_translateZ => Transform.translateZ
  end.

(** The CSS function a method emits. *)
Definition css_function (m : UnitMethod) : string :=
  match m with
  | m_perspective => "perspective"
  | m_rotate => "rotate" | m_rotateX => "rotateX"
  | m_rotateY => "rotateY" | m_rotateZ => "rotateZ"
  | m_skewX => "skewX" | m_skewY => "skewY"
  | m_translateX => "translateX" | m_translateY => "translateY"
  | m_translateZ => "translateZ"
  end.

(** Lengths take [px], angles take [deg]. *)
Definition css_unit (m : UnitMethod) : string :=
  match m with
  | m_perspective | m_translateX | m_translateY | m_translateZ => "px"
  | _ => "deg"
  end.

(** The configuration objects a builder refers to: its own and those of
    the builders chained to it. *)
Fixpoint Transition_locations (b : Transition.t) : list Heap.loc :=
  match b with
  | Transition.mk _ c others => c :: concat (Transition_locations <$> others)
  end.

Fixpoint Animation_locations (b : Animation.t) : list Heap.loc :=
  match b with
  | Animation.mk _ c others => c :: concat (Animation_locations <$> others)
  end.

(** The module-level objects lie below [first_free]; the next location to
    be allocated never does. *)
Definition heap_ok (h : Heap.heap) : Prop := (first_free <= Heap.next h)%nat.

(** Locations of objects allocated after the modules were loaded. *)
Definition allocated (h : Heap.heap) (ls : list Heap.loc) : Prop :=
  Forall (fun l => (first_free <= l < Heap.next h)%nat) ls.

(** A call that returns a transition builder. *)
Inductive TransitionCall :=
| t_transition (properties : list string)
| t_duration (this : Transition.t) (duration : Value)
| t_timingFunction (this : Transition.t) (timingFunction : Value)
| t_delay (this : Transition.t) (delay : Value)
| t_and (this : Transition.t) (transitions : list Transition.t).

Definition Transition_call (c : TransitionCall) : Heap.M Transition.t :=
  match c with
  | t_transition properties => Transition.transition properties
  | t_duration this d => Transition.duration this d
  | t_timingFunction this f => Transition.timingFunction this f
  | t_delay this d => Transition.delay this d
  | t_and this ts => Transition.and this ts
  end.

(** The builders a call is given. *)
Definition Transition_uses (c : TransitionCall) : list Transition.t :=
  match c with
  | t_transition _ => []
  | t_duration this _ | t_timingFunction this _ | t_delay this _ => [this]
  | t_and this ts => this :: ts
  end.

(** A call that returns an animation builder. *)
Inductive AnimationCall :=
| a_animation (keyframes : list string)
| a_duration (this : Animation.t) (duration : Value)
| a_timingFunction (this : Animation.t) (timingFunction : Value)
| a_delay (this : Animation.t) (delay : Value)
| a_iterationCount (this : Animation.t) (iterationCount : Value)
| a_direction (this : Animation.t) (direction : Value)
| a_fillMode (this : Animation.t) (fillMode : Value)
| a_playState (this : Animation.t) (playState : Value)
| a_and (this : Animation.t) (animations : list Animation.t).

Definition Animation_call (c : AnimationCall) : Heap.M Animation.t :=
  match c with
  | a_animation keyframes => Animation.animation keyframes
  | a_duration this d => Animation.duration this d
  | a_timingFunction this f => Animation.timingFunction this f
  | a_delay this d => Animation.delay this d
  | a_iterationCount this v => Animation.iterationCount this v
  | a_direction this v => Animation.direction this v
  | a_fillMode this v => Animation.fillMode this v
  | a_playState this v => Animation.playState this v
  | a_and this ts => Animation.and this ts
  end.

Definition Animation_uses (c : AnimationCall) : list Animation.t :=
  match c with
  | a_animation _ => []
  | a_and this ts => this :: ts
  | a_duration this _ | a_timingFunction this _ | a_delay this _
  | a_iterationCount this _ | a_direction this _ | a_fillMode this _
  | a_playState this _ => [this]
  end.

(** A client program's view of the package: the heap and the builders it
    has obtained so far. *)
Record world := World {
  heap_of : Heap.heap;
  transitions : list Transition.t;
  animations : list Animation.t
}.

(** One call of the package's interface on builders obtained earlier. *)
Inductive step : world -> world -> Prop :=
| step_Transition (c : TransitionCall) (w : world) :
    Forall (fun b => b ∈ transitions w) (Transition_uses c) ->
    step w (World (Transition_call c (heap_of w)).2
                  ((Transition_call c (heap_of w)).1 :: transitions w)
                  (animations w))
| step_Animation (c : AnimationCall) (w : world) :
    Forall (fun b => b ∈ animations w) (Animation_uses c) ->
    step w (World (Animation_call c (heap_of w)).2
                  (transitions w)
                  ((Animation_call c (heap_of w)).1 :: animations w))
| step_transitionConfigDefaults (newConfig : Heap.obj) (w : world) :
    step w (World (Transition.transitionConfigDefaults newConfig (heap_of w)).2
                  (transitions w) (animations w))
| step_animationConfigDefaults (newConfig : Heap.obj) (w : world) :
    step w (World (Animation.animationConfigDefaults newConfig (heap_of w)).2
                  (transitions w) (animations w)).

(** The worlds a program can be in, starting when the modules are loaded. *)
Definition reachable (w : world) : Prop := rtc step (World initial_heap [] []) w.

(** What every reachable world satisfies. *)
Definition world_ok (w : world) : Prop :=
  heap_ok (heap_of w)
  /\ Forall (fun b => allocated (heap_of w) (Transition_locations b)) (transitions w)
  /\ Forall (fun b => allocated (heap_of w) (Animation_locations b)) (animations w).

(** Every character of a string satisfies [p]. *)
Fixpoint all_chars (p : ascii -> bool) (s : string) : bool :=
  match s with
  | EmptyString => true
  | String c r => p c && all_chars p r
  end.

(** A string that is empty or holds white space only. *)
Definition blank (s : string) : bool := all_chars JsNumber.is_space s.

(** The characters that can occur in a string [Number] reads as a number:
    white space, digits in any radix, signs, the dot, the radix prefixes
    and the letters of [Infinity]. *)
Definition numeric_char (c : ascii) : bool :=
  JsNumber.is_space c
  || match JsNumber.digit_in 16 c with Some _ => true | None => false end
  || match JsNumber.radix_of_prefix c with Some _ => true | None => false end
  || existsb (Ascii.eqb c) ["+"; "-"; "."; "I"; "n"; "f"; "i"; "t"; "y"]%char.

(** A string with a character no numeric text has. *)
Definition foreign (s : string) : Prop := all_chars numeric_char s = false.

(** A call of a method of the transform builder. *)
Inductive TransformCall :=
| tr_matrix (a1 b1 a2 b2 a4 b4 : number)
| tr_matrix3d (a1 b1 c1 d1 a2 b2 c2 d2 a3 b3 c3 d3 a4 b4 c4 d4 : number)
| tr_perspective (value : Calc.Operand)
| tr_rotate (value : Calc.Operand)
| tr_rotate3d (x y z : number) (angle : Calc.Operand)
| tr_rotateX (value : Calc.Operand)
| tr_rotateY (value : Calc.Operand)
| tr_rotateZ (value : Calc.Operand)
| tr_scale (x : Calc.Operand) (y : option Calc.Operand)
| tr_scale3d (x y z : number)
| tr_scaleX (value : number)
| tr_scaleY (value : number)
| tr_scaleZ (value : number)
| tr_skew (x : Calc.Operand) (y : option Calc.Operand)
| tr_skewX (value : Calc.Operand)
| tr_skewY (value : Calc.Operand)
| tr_translate (x : Calc.Operand) (y : option Calc.Operand)
| tr_translate3d (x y z : Calc.Operand)
| tr_translateX (value : Calc.Operand)
| tr_translateY (value : Calc.Operand)
| tr_translateZ (value : Calc.Operand).

Definition Transform_call (c : TransformCall) (this : Transform.t) : Transform.t :=
  match c with
  | tr_matrix a1 b1 a2 b2 a4 b4 => Transform.matrix this a1 b1 a2 b2 a4 b4
  | tr_matrix3d a1 b1 c1 d1 a2 b2 c2 d2 a3 b3 c3 d3 a4 b4 c4 d4 =>
      Transform.matrix3d this a1 b1 c1 d1 a2 b2 c2 d2 a3 b3 c3 d3 a4 b4 c4 d4
  | tr_perspective v => Transform.perspective this v
  | tr_rotate v => Transform.rotate this v
  | tr_rotate3d x y z a => Transform.rotate3d this x y z a
  | tr_rotateX v => Transform.rotateX this v
  | tr_rotateY v => Transform.rotateY this v
  | tr_rotateZ v => Transform.rotateZ this v
  | tr_scale x y => Transform.scale this x y
  | tr_scale3d x y z => Transform.scale3d this x y z
  | tr_scaleX v => Transform.scaleX this v
  | tr_scaleY v => Transform.scaleY this v
  | tr_scaleZ v => Transform.scaleZ this v
  | tr_skew x y => Transform.skew this x y
  | tr_skewX v => Transform.skewX this v
  | tr_skewY v => Transform.skewY this v
  | tr_translate x y => Transform.translate this x y
  | tr_translate3d x y z => Transform.translate3d this x y z
  | tr_translateX v => Transform.translateX this v
  | tr_translateY v => Transform.translateY this v
  | tr_translateZ v => Transform.translateZ this v
  end.

(** [transform().m1(...).m2(...)...] *)
Definition Transform_chain (calls : list TransformCall) : Transform.t :=
  fold_left (fun this c => Transform_call c this) calls Transform.transform.

(** The characters of a number's text. *)
Definition number_text_chars : string := "0123456789.e+-NaInfity".

(** A number that is neither [NaN] nor infinite. *)
Definition finite (x : number) : Prop :=
  match x with
  | S754_zero _ | S754_finite _ _ _ => True
  | _ => False
  end.

(** Parenthesis depth after reading [s] from depth [d]; [None] when a
    closing parenthesis has no opening one. *)
Fixpoint scan (s : string) (d : nat) : option nat :=
  match s with
  | EmptyString => Some d
  | String c r =>
      if Ascii.eqb c "(" then scan r (S d)
      else if Ascii.eqb c ")" then
        match d with
        | O => None
        | S d' => scan r d'
        end
      else scan r d
  end.

Definition balanced (s : string) : Prop := scan s 0 = Some 0%nat.

Definition no_parenthesis (c : ascii) : bool :=
  negb (Ascii.eqb c "(" || Ascii.eqb c ")").

(** An operand whose own texts are balanced. *)
Definition operand_balanced (x : Calc.Operand) : Prop :=
  match x with
  | Calc.OStr s => balanced s
  | Calc.ONum _ => True
  | Calc.OCalc c => Forall balanced (Calc.expressions c)
  end.

(** A string or a number, not a node. *)
Definition literal (x : Calc.Operand) : Prop :=
  match x with Calc.OCalc _ => False | _ => True end.

(** The setters of a transition, with the field each one writes. *)
Inductive TransitionSetter :=
| ts_duration (duration : Value)
| ts_timingFunction (timingFunction : Value)
| ts_delay (delay : Value).

Definition Transition_set (s : TransitionSetter) (this : Transition.t)
    : Heap.M Transition.t :=
  match s with
  | ts_duration d => Transition.duration this d
  | ts_timingFunction f => Transition.timingFunction this f
  | ts_delay d => Transition.delay this d
  end.

Definition Transition_field (s : TransitionSetter) : string :=
  match s with
  | ts_duration _ => "transitionDuration"
  | ts_timingFunction _ => "transitionTimingFunction"
  | ts_delay _ => "transitionDelay"
  end.

(** The setters of an animation, with the field each one writes. *)
Inductive AnimationSetter :=
| as_duration (duration : Value)
| as_timingFunction (timingFunction : Value)
| as_delay (delay : Value)
| as_iterationCount (iterationCount : Value)
| as_direction (direction : Value)
| as_fillMode (fillMode : Value)
| as_playState (playState : Value).

Definition Animation_set (s : AnimationSetter) (this : Animation.t)
    : Heap.M Animation.t :=
  match s with
  | as_duration d => Animation.duration this d
  | as_timingFunction f => Animation.timingFunction this f
  | as_delay d => Animation.delay this d
  | as_iterationCount v => Animation.iterationCount this v
  | as_direction v => Animation.direction this v
  | as_fillMode v => Animation.fillMode this v
  | as_playState v => Animation.playState this v
  end.

Definition Animation_field (s : AnimationSetter) : string :=
  match s with
  | as_duration _ => "animationDuration"
  | as_timingFunction _ => "animationTimingFunction"
  | as_delay _ => "animationDelay"
  | as_iterationCount _ => "animationIterationCount"
  | as_direction _ => "animationDirection"
  | as_fillMode _ => "animationFillMode"
  | as_playState _ => "animationPlayState"
  end.

(** The value a setter writes. *)
Definition Transition_value (s : TransitionSetter) : Value :=
  match s with
  | ts_duration d => coerceToTime d None
  | ts_timingFunction f => f
  | ts_delay d => coerceToTime d None
  end.

Definition Animation_value (s : AnimationSetter) : Value :=
  match s with
  | as_duration d => coerceToTime d None
  | as_timingFunction f => f
  | as_delay d => coerceToTime d None
  | as_iterationCount v | as_direction v | as_fillMode v | as_playState v => v
  end.

(** The pairs a builder renders for its own names, for the configuration
    object [o]. *)
Definition Transition_pairs (o : Heap.obj) (properties : list string) : string :=
  join ", " ((fun property => property +:+ " " +:+ Transition.cfg o) <$> properties).

Definition Animation_pairs (o : Heap.obj) (keyframes : list string) : string :=
  join ", " ((fun keyframe => Animation.cfg o +:+ " " +:+ keyframe) <$> keyframes).

(** What [toString()] gives for the builder a call returned, in the heap
    the call left. *)
Definition Transition_render (r : Transition.t * Heap.heap) : string :=
  Transition.toString r.2 r.1.

Definition Animation_render (r : Animation.t * Heap.heap) : string :=
  Animation.toString r.2 r.1.

(** The operands a transform call is given, the defaulted ones left
    out. *)
Definition Transform_operands (c : TransformCall) : list Calc.Operand :=
  match c with
  | tr_matrix _ _ _ _ _ _ | tr_matrix3d _ _ _ _ _ _ _ _ _ _ _ _ _ _ _ _
  | tr_scale3d _ _ _ | tr_scaleX _ | tr_scaleY _ | tr_scaleZ _ => []
  | tr_perspective v | tr_rotate v | tr_rotate3d _ _ _ v | tr_rotateX v
  | tr_rotateY v | tr_rotateZ v | tr_skewX v | tr_skewY v
  | tr_translateX v | tr_translateY v | tr_translateZ v => [v]
  | tr_scale x y | tr_skew x y | tr_translate x y =>
      x :: match y with Some y => [y] | None => [] end
  | tr_translate3d x y z => [x; y; z]
  end.

(** A value whose text is balanced. *)
Definition value_balanced (v : Value) : Prop :=
  match v with
  | VStr s => balanced s
  | _ => True
  end.

(** A builder expression that both versions of transition.ts accept:
    [transition(...)], [.duration(d)], the easing setter ([.easing(e)]
    earlier, [.timingFunction(e)] now) and [.and(...)]. *)
#[warnings="-register-all"]
Inductive Recipe :=
| r_transition (properties : list string)
| r_duration (r : Recipe) (duration : Value)
| r_easing (r : Recipe) (easing : Value)
| r_and (r : Recipe) (rs : list Recipe).

(** The arguments of a call, evaluated left to right. *)
Definition in_order {A B} (f : A -> Heap.M B) : list A -> Heap.M (list B) :=
  fix go l :=
    match l with
    | [] => Heap.ret []
    | x :: l => b <- f x ;; bs <- go l ;; Heap.ret (b :: bs)
    end.

Fixpoint Recipe_legacy (st : LegacyTransition.defaults) (r : Recipe)
    : LegacyTransition.t :=
  match r with
  | r_transition properties => LegacyTransition.transition st properties
  | r_duration r d => LegacyTransition.duration st (Recipe_legacy st r) d
  | r_easing r e => LegacyTransition.easing st (Recipe_legacy st r) e
  | r_and r rs =>
      LegacyTransition.and st (Recipe_legacy st r) (Recipe_legacy st <$> rs)
  end.

Fixpoint Recipe_new (r : Recipe) : Heap.M Transition.t :=
  match r with
  | r_transition properties => Transition.transition properties
  | r_duration r d => b <- Recipe_new r ;; Transition.duration b d
  | r_easing r e => b <- Recipe_new r ;; Transition.timingFunction b e
  | r_and r rs =>
      b <- Recipe_new r ;; bs <- in_order Recipe_new rs ;; Transition.and b bs
  end.

(** Every value the expression stores is truthy once coerced. *)
Fixpoint Recipe_truthy (r : Recipe) : bool :=
  match r with
  | r_transition _ => true
  | r_duration r d => Recipe_truthy r && Value_toBoolean (coerceToTime d None)
  | r_easing r e => Recipe_truthy r && Value_toBoolean e
  | r_and r rs => Recipe_truthy r && forallb Recipe_truthy rs
  end.

(** The defaults of the two versions hold the same truthy duration and
    easing, and the later version has no default delay. *)
Definition defaults_agree (st : LegacyTransition.defaults) (h : Heap.heap) : Prop :=
  let o := Heap.read h Transition.defaultConfig in
  Heap.get o "transitionDuration" = LegacyTransition.defaultDuration st
  /\ Heap.get o "transitionTimingFunction" = LegacyTransition.defaultEasing st
  /\ Value_toBoolean (Heap.get o "transitionDelay") = false
  /\ Value_toBoolean (LegacyTransition.defaultDuration st) = true
  /\ Value_toBoolean (LegacyTransition.defaultEasing st) = true.

(** The record the later version is given for the earlier one's
    [{ duration, easing }]. *)
Definition Legacy_config (duration easing : Value) : Heap.obj :=
  (if Value_is_undefined duration then ∅
   else {["transitionDuration" := duration]})
  ∪ (if Value_is_undefined easing then ∅
     else {["transitionTimingFunction" := easing]}).

(** A field that is left out or given a truthy value. *)
Definition absent_or_truthy (v : Value) : Prop :=
  v = VUndefined \/ Value_toBoolean v = true.

(** [b], in the heap [h], holds what the earlier version's instance
    [old] holds. *)
Definition refines (h : Heap.heap) (old : LegacyTransition.t) (b : Transition.t)
    : Prop :=
  let o := Heap.read h (Transition.configuration b) in
  Transition.properties b = LegacyTransition.properties old
  /\ Heap.get o "transitionDuration" = LegacyTransition.durationValue old
  /\ Heap.get o "transitionTimingFunction" = LegacyTransition.easingValue old
  /\ Value_toBoolean (Heap.get o "transitionDelay") = false
  /\ Value_toBoolean (LegacyTransition.durationValue old) = true
  /\ Value_toBoolean (LegacyTransition.easingValue old) = true
  /\ Transition.toString h <$> Transition.otherTransitions b
     = LegacyTransition.toString <$> LegacyTransition.otherTransitions old.

(** [h'] has every object of [h], unchanged. *)
Definition extends (h h' : Heap.heap) : Prop :=
  (Heap.next h <= Heap.next h')%nat
  /\ forall l, (l < Heap.next h)%nat -> Heap.read h' l = Heap.read h l.

(** What evaluating an expression in the later version establishes. *)
Definition Recipe_simulated (st : LegacyTransition.defaults) (r : Recipe) : Prop :=
  Recipe_truthy r = true ->
  forall h, heap_ok h -> defaults_agree st h ->
    extends h (Recipe_new r h).2
    /\ allocated (Recipe_new r h).2 (Transition_locations (Recipe_new r h).1)
    /\ refines (Recipe_new r h).2 (Recipe_legacy st r) (Recipe_new r h).1.

(* ===================================================================== *)
(** ** Strings and [join] *)
(* ===================================================================== *)

Lemma append_String (x : ascii) (a b : string) :
  String x a +:+ b = String x (a +:+ b).
Proof. reflexivity. Qed.

Lemma append_assoc (a b c : string) : (a +:+ b) +:+ c = a +:+ (b +:+ c).
Proof.
  induction a as [|x a IH]; [reflexivity|].
  rewrite !append_String. by rewrite IH.
Qed.

Lemma length_append (a b : string) :
  String.length (a +:+ b) = (String.length a + String.length b)%nat.
Proof.
  induction a as [|x a IH]; [reflexivity|].
  rewrite append_String. cbn [String.length]. by rewrite IH.
Qed.

Lemma join_singleton sep x : join sep [x] = x.
Proof. reflexivity. Qed.

Lemma join_cons sep x y l :
  join sep (x :: y :: l) = x +:+ sep +:+ join sep (y :: l).
Proof. reflexivity. Qed.

(** Joining onto an element that already ends a joined text. *)
Lemma join_push sep a x m :
  join sep ((a +:+ sep +:+ x) :: m) = a +:+ sep +:+ join sep (x :: m).
Proof.
  destruct m as [|c m]; [reflexivity|].
  rewrite !join_cons. by rewrite !append_assoc.
Qed.

(** A joined text used as the first element of a list joined with the
    same separator is the join of the concatenated lists. *)
Lemma join_flatten sep a l m :
  join sep (join sep (a :: l) :: m) = join sep (a :: l ++ m).
Proof.
  revert a. induction l as [|b l IH]; intros a; [reflexivity|].
  change ((b :: l) ++ m)%list with (b :: (l ++ m))%list.
  rewrite !join_cons, join_push.
  do 2 f_equal. apply IH.
Qed.

(* ===================================================================== *)
(** ** The expression builder *)
(* ===================================================================== *)

Section CalcFacts.
Import Calc calc_ts.

Lemma expressions_new exprs o f :
  expressions (new exprs o f)
  = coerce (isFactor (mk [] o f)) (isFn (mk [] o f)) <$> exprs.
Proof. reflexivity. Qed.

Lemma expressions_new_lookup exprs o f i e :
  exprs !! i = Some e ->
  expressions (new exprs o f) !! i
  = Some (coerce (isFactor (mk [] o f)) (isFn (mk [] o f)) e).
Proof. intros H. by rewrite expressions_new, list_lookup_fmap, H. Qed.

Lemma isFactor_mk l o f : isFactor (mk l (Some o) f) = multiplicative o.
Proof. by destruct o. Qed.

Lemma build_operator (c : Calc.t) o :
  operator c = Some o -> build c = join (separator o) (expressions c).
Proof. unfold build. by intros ->. Qed.

Lemma expressions_arithmetic o this operands :
  expressions (arithmetic o this operands)
  = coerce (multiplicative o) false <$> (OCalc this :: operands).
Proof. by destruct o. Qed.

Lemma operator_arithmetic o this operands :
  operator (arithmetic o this operands) = Some o.
Proof. by destruct o. Qed.

Lemma fn_arithmetic o this operands :
  fn (arithmetic o this operands) = F_calc.
Proof. by destruct o. Qed.

Lemma build_arithmetic o this operands :
  build (arithmetic o this operands)
  = join (separator o)
      (coerce (multiplicative o) false <$> (OCalc this :: operands)).
Proof.
  rewrite (build_operator _ o) by apply operator_arithmetic.
  by rewrite expressions_arithmetic.
Qed.

Lemma toString_arithmetic o this operands :
  toString (arithmetic o this operands)
  = "calc(" +:+ build (arithmetic o this operands) +:+ ")".
Proof. unfold toString. by rewrite fn_arithmetic. Qed.

(** A node never renders to its own unwrapped text. *)
Lemma toString_neq_build (c : Calc.t) : toString c <> build c.
Proof.
  intros H. apply (f_equal String.length) in H.
  unfold toString in H. rewrite !length_append in H.
  cbn [String.length] in H. lia.
Qed.

(** The shapes the file gives to its nodes. *)
Lemma api_shape_new_fn exprs f : api_shape (new exprs None f).
Proof. by left. Qed.

Lemma api_shape_new_operator exprs o : api_shape (new exprs (Some o) F_calc).
Proof. by right. Qed.

Lemma api_shape_arithmetic o this operands :
  api_shape (arithmetic o this operands).
Proof. destruct o; apply api_shape_new_operator. Qed.

Lemma api_shape_negate this : api_shape (negate this).
Proof. apply api_shape_new_operator. Qed.

Lemma api_shape_calc x : api_shape (calc x).
Proof. apply api_shape_new_fn. Qed.

Lemma api_shape_e factor : api_shape (e factor).
Proof. unfold e. destruct (strict_eq _ _); by right. Qed.

Lemma api_shape_pi factor : api_shape (pi factor).
Proof. unfold pi. destruct (strict_eq _ _); by right. Qed.

Lemma api_shape_random r scale offset : api_shape (random r scale offset).
Proof. apply api_shape_new_fn. Qed.

Lemma api_shape_fn_method m this : api_shape (fn_method m this).
Proof. destruct m as [ | | | | | | | | | | |[b|]| | | | | | ]; by left. Qed.

(** The exported function constructors. *)
Lemma api_shape_exports (x y z : Operand) (xs : list Operand) (b : option Operand) :
  Forall api_shape
    [inf true; inf false; nan; calc_ts.min xs; calc_ts.max xs;
     calc_ts.clamp x y z; calc_ts.acos x; calc_ts.asin x; calc_ts.atan x;
     calc_ts.atan2 x y; calc_ts.cos x; calc_ts.sin x; calc_ts.tan x;
     calc_ts.sqrt x; calc_ts.log x b; calc_ts.exp x; calc_ts.abs x;
     calc_ts.pow x y; calc_ts.round x; calc_ts.ceil x; calc_ts.floor x].
Proof. destruct b; repeat constructor. Qed.

(** A named-function node of the file has no operator, so it is not a
    term. *)
Lemma api_shape_fn_not_term (c : Calc.t) :
  api_shape c -> isFn c = true -> isTerm c = false.
Proof.
  unfold isFn, isTerm. intros [-> | ->]; [done | discriminate].
Qed.

End CalcFacts.

Section CalcClaims.
Import Calc calc_ts.

Lemma additive_isTerm (c : Calc.t) : additive c -> isTerm c = true.
Proof. unfold isTerm. by intros [-> | ->]. Qed.

Lemma named_function_isFn (c : Calc.t) : named_function c -> isFn c = true.
Proof. unfold named_function, isFn. by destruct (fn c). Qed.

Lemma multiplicative_true o : o = Times \/ o = Divide -> multiplicative o = true.
Proof. by intros [-> | ->]. Qed.

(** C1. Whenever a node with operator [*] or [/] is constructed, an
    operand that is a node with operator [+] or [-] is stored as its
    [build()] text between parentheses, at the operand's own position;
    this covers [multiply] and [divide] (receiver and arguments) and
    [negate] (the receiver, second operand), and the stored texts are the
    ones joined when the node is rendered. *)
Theorem C1_additive_operand_is_parenthesized :
  (forall (o : Operator) (f : Fn) (exprs : list Operand) (i : nat) (c : Calc.t),
      o = Times \/ o = Divide ->
      additive c ->
      exprs !! i = Some (OCalc c) ->
      expressions (new exprs (Some o) f) !! i = Some ("(" +:+ build c +:+ ")")
      /\ build (new exprs (Some o) f)
         = join (separator o) (expressions (new exprs (Some o) f)))
  /\ (forall (this : Calc.t) (operands : list Operand) (i : nat) (c : Calc.t),
      additive c ->
      (OCalc this :: operands) !! i = Some (OCalc c) ->
      expressions (multiply this operands) !! i = Some ("(" +:+ build c +:+ ")")
      /\ expressions (divide this operands) !! i = Some ("(" +:+ build c +:+ ")"))
  /\ (forall this : Calc.t,
      additive this ->
      expressions (negate this) !! 1%nat = Some ("(" +:+ build this +:+ ")")).
Proof.
  assert (G : forall o f exprs i c,
             o = Times \/ o = Divide -> additive c ->
             exprs !! i = Some (OCalc c) ->
             expressions (new exprs (Some o) f) !! i
             = Some ("(" +:+ build c +:+ ")")).
  { intros o f exprs i c Ho Hc Hi.
    rewrite (expressions_new_lookup _ _ _ _ _ Hi), isFactor_mk.
    rewrite (multiplicative_true _ Ho). cbn [coerce].
    by rewrite (additive_isTerm _ Hc). }
  split; [|split].
  - intros o f exprs i c Ho Hc Hi. split; [by apply G|].
    by apply build_operator.
  - intros this operands i c Hc Hi. split; apply G; auto.
  - intros this Hc. by apply G; auto.
Qed.

Lemma C1_additive_operand_is_parenthesized_witness :
  toString (multiply (add (calc (ONum (of_Z 1))) [ONum (of_Z 2); ONum (of_Z 3)])
                     [ONum (of_Z 4)])
  = "calc((1 + 2 + 3) * 4)"
  /\ expressions (multiply (add (calc (ONum (of_Z 1))) [ONum (of_Z 2); ONum (of_Z 3)])
                           [ONum (of_Z 4)]) !! 0%nat
     = Some ("(" +:+ build (add (calc (ONum (of_Z 1))) [ONum (of_Z 2); ONum (of_Z 3)]) +:+ ")").
Proof.
  split; [vm_compute; reflexivity|].
  destruct C1_additive_operand_is_parenthesized as (_ & H & _).
  apply (H (add (calc (ONum (of_Z 1))) [ONum (of_Z 2); ONum (of_Z 3)])
           [ONum (of_Z 4)] 0%nat).
  - left. reflexivity.
  - reflexivity.
Defined.

(** C2. When the node under construction is a named-function node, every
    operand is stored as its full [toString()]; when an operand is a
    named-function node (of the shape the file builds), it is stored as
    its full [toString()] whatever the node under construction is.  The
    full text of a node always differs from its bare [build()] text. *)
Theorem C2_function_argument_is_full_text :
  (forall (f : Fn) (exprs : list Operand) (i : nat) (x : Operand),
      f <> F_calc ->
      exprs !! i = Some x ->
      expressions (new exprs None f) !! i = Some (Operand_toString x))
  /\ (forall (o : option Operator) (exprs : list Operand) (i : nat) (c : Calc.t),
      api_shape c ->
      named_function c ->
      exprs !! i = Some (OCalc c) ->
      expressions (new exprs o F_calc) !! i = Some (toString c))
  /\ (forall c : Calc.t, toString c <> build c).
Proof.
  split; [|split].
  - intros f exprs i x Hf Hi.
    rewrite (expressions_new_lookup _ _ _ _ _ Hi). f_equal.
    assert (isFn (mk [] None f) = true) as -> by (by destruct f).
    by destruct x.
  - intros o exprs i c Hs Hc Hi.
    rewrite (expressions_new_lookup _ _ _ _ _ Hi). f_equal.
    cbn [coerce].
    rewrite (api_shape_fn_not_term _ Hs (named_function_isFn _ Hc)).
    rewrite (named_function_isFn _ Hc).
    rewrite andb_false_r, orb_true_r. reflexivity.
  - apply toString_neq_build.
Qed.

Lemma C2_function_argument_is_full_text_witness :
  toString (add (calc_ts.min [ONum (of_Z 1); ONum (of_Z 2); ONum (of_Z 3)])
                [ONum (of_Z 4)])
  = "calc(min(1, 2, 3) + 4)"
  /\ expressions (Calc.min (add (calc (ONum (of_Z 4))) [ONum (of_Z 3)])
                           [ONum (of_Z 2); ONum (of_Z 3)]) !! 0%nat
     = Some "calc(4 + 3)"
  /\ expressions (add (calc_ts.min [ONum (of_Z 1); ONum (of_Z 2); ONum (of_Z 3)])
                      [ONum (of_Z 4)]) !! 0%nat
     = Some (toString (calc_ts.min [ONum (of_Z 1); ONum (of_Z 2); ONum (of_Z 3)]))
  /\ expressions (Calc.min (add (calc (ONum (of_Z 4))) [ONum (of_Z 3)])
                           [ONum (of_Z 2); ONum (of_Z 3)]) !! 0%nat
     = Some (Operand_toString (OCalc (add (calc (ONum (of_Z 4))) [ONum (of_Z 3)]))).
Proof.
  destruct C2_function_argument_is_full_text as (Hfn & Harg & _).
  split; [vm_compute; reflexivity|].
  split; [vm_compute; reflexivity|].
  split.
  - apply (Harg (Some Plus)
             [OCalc (calc_ts.min [ONum (of_Z 1); ONum (of_Z 2); ONum (of_Z 3)]);
              ONum (of_Z 4)] 0%nat).
    + left. reflexivity.
    + discriminate.
    + reflexivity.
  - apply (Hfn F_min
             [OCalc (add (calc (ONum (of_Z 4))) [ONum (of_Z 3)]);
              ONum (of_Z 2); ONum (of_Z 3)] 0%nat).
    + discriminate.
    + reflexivity.
Defined.

Lemma isTerm_additive (c : Calc.t) : isTerm c = true -> additive c.
Proof.
  unfold isTerm, additive.
  destruct (operator c) as [[]|]; intros; try discriminate; auto.
Qed.

(** The result of an arithmetic method, used as the receiver of the same
    method, contributes its unwrapped text. *)
Lemma coerce_same_operator o this xs :
  coerce (multiplicative o) false (OCalc (arithmetic o this xs))
  = build (arithmetic o this xs).
Proof. by destruct o. Qed.

Lemma build_chain o this xs calls :
  build (chain o this (xs :: calls))
  = join (separator o)
      (coerce (multiplicative o) false <$> (OCalc this :: xs ++ concat calls)).
Proof.
  revert this xs. induction calls as [|ys calls IH]; intros this xs.
  - cbn [concat]. rewrite app_nil_r. apply build_arithmetic.
  - change (chain o this (xs :: ys :: calls))
      with (chain o (arithmetic o this xs) (ys :: calls)).
    rewrite IH. cbn [concat].
    rewrite !fmap_cons, !fmap_app, coerce_same_operator, build_arithmetic.
    by rewrite fmap_cons, join_flatten.
Qed.

Lemma fn_chain o this xs calls : fn (chain o this (xs :: calls)) = F_calc.
Proof.
  revert this xs. induction calls as [|ys calls IH]; intros this xs.
  - apply fn_arithmetic.
  - apply (IH (arithmetic o this xs) ys).
Qed.

Lemma toString_chain o this xs calls :
  toString (chain o this (xs :: calls))
  = "calc(" +:+ build (chain o this (xs :: calls)) +:+ ")".
Proof. unfold toString. by rewrite fn_chain. Qed.

(** C3. In a node wrapped by [calc], an operand node that is neither an
    additive node under a multiplicative operator nor a named-function
    node is stored as its bare [build()] text.  Hence a chain of calls of
    one arithmetic method renders as a single [calc(...)] around the flat
    list of all operands, in order; [calc(1).add(2).add(3)] renders
    ["calc(1 + 2 + 3)"], not ["calc(calc(1 + 2) + 3)"]. *)
Theorem C3_same_operator_chain_is_flat :
  (forall (o : option Operator) (exprs : list Operand) (i : nat) (c : Calc.t),
      (forall op, o = Some op -> multiplicative op = true -> ~ additive c) ->
      ~ named_function c ->
      exprs !! i = Some (OCalc c) ->
      expressions (new exprs o F_calc) !! i = Some (build c))
  /\ (forall (o : Operator) (this : Calc.t) (xs : list Operand)
             (calls : list (list Operand)),
      toString (chain o this (xs :: calls))
      = "calc(" +:+
          join (separator o)
            (coerce (multiplicative o) false <$> (OCalc this :: xs ++ concat calls))
          +:+ ")")
  /\ toString (add (add (calc (ONum (of_Z 1))) [ONum (of_Z 2)]) [ONum (of_Z 3)])
     = "calc(1 + 2 + 3)"
  /\ toString (add (add (calc (ONum (of_Z 1))) [ONum (of_Z 2)]) [ONum (of_Z 3)])
     <> "calc(calc(1 + 2) + 3)".
Proof.
  split; [|split; [|split]].
  - intros o exprs i c Hctx Hfn Hi.
    rewrite (expressions_new_lookup _ _ _ _ _ Hi). f_equal.
    cbn [coerce].
    assert (isFn c = false) as ->.
    { destruct (isFn c) eqn:E; [|done]. exfalso. apply Hfn.
      unfold named_function. unfold isFn in E. by destruct (fn c). }
    assert (isFactor (mk [] o F_calc) && isTerm c = false) as ->.
    { destruct o as [op|]; [|done]. rewrite isFactor_mk.
      destruct (multiplicative op) eqn:Em; [|done].
      destruct (isTerm c) eqn:Et; [|done].
      exfalso. apply (Hctx op eq_refl Em). by apply isTerm_additive. }
    reflexivity.
  - intros o this xs calls. by rewrite toString_chain, build_chain.
  - vm_compute. reflexivity.
  - vm_compute. discriminate.
Qed.

Lemma C3_same_operator_chain_is_flat_witness :
  expressions (add (add (calc (ONum (of_Z 1))) [ONum (of_Z 2)]) [ONum (of_Z 3)])
    !! 0%nat
  = Some (build (add (calc (ONum (of_Z 1))) [ONum (of_Z 2)]))
  /\ build (add (calc (ONum (of_Z 1))) [ONum (of_Z 2)]) = "1 + 2".
Proof.
  split; [|vm_compute; reflexivity].
  destruct C3_same_operator_chain_is_flat as (H & _).
  apply (H (Some Plus)
           [OCalc (add (calc (ONum (of_Z 1))) [ONum (of_Z 2)]); ONum (of_Z 3)]
           0%nat).
  - intros op Hop Hm. injection Hop as <-. discriminate Hm.
  - intros Hn. apply Hn. reflexivity.
  - reflexivity.
Defined.

(** C5, as amended.  Every method that builds a node from a receiver
    stores one text per operand, in the order supplied.  For [add],
    [subtract], [multiply], [divide] and the named-function methods the
    receiver is the first operand, followed by the arguments; for
    [negate] the operand list is [[-1, receiver]]: the receiver is the
    second operand. *)
Theorem C5_operand_order :
  (forall (o : Operator) (this : Calc.t) (operands : list Operand),
      expressions (arithmetic o this operands)
      = coerce (multiplicative o) false <$> (OCalc this :: operands))
  /\ (forall (m : FnCall) (this : Calc.t),
      expressions (fn_method m this)
      = Operand_toString <$> (OCalc this :: fn_arguments m))
  /\ (forall this : Calc.t,
      negate this = new [ONum (of_Z (-1)); OCalc this] (Some Times) F_calc
      /\ expressions (negate this) = ["-1"; coerce true false (OCalc this)]).
Proof.
  split; [|split].
  - apply expressions_arithmetic.
  - intros m this.
    destruct m as [ | | | | | | | | | | |[b|]| | | | | | ]; reflexivity.
  - intros this. split; reflexivity.
Qed.

(** C5, as stated, fails: the receiver of [negate] is not the first
    operand.  [calc(1).negate()] stores [["-1", "1"]]. *)
Lemma C5_negate_receiver_is_not_first :
  expressions (negate (calc (ONum (of_Z 1)))) = ["-1"; "1"]
  /\ coerce true false (OCalc (calc (ONum (of_Z 1)))) = "1"
  /\ ~ (forall this : Calc.t,
          expressions (negate this) !! 0%nat
          = Some (coerce true false (OCalc this))).
Proof.
  split; [vm_compute; reflexivity|].
  split; [vm_compute; reflexivity|].
  intros H. specialize (H (calc (ONum (of_Z 1)))).
  vm_compute in H. discriminate H.
Qed.

(** C9. An arithmetic method called without operands returns a node that
    renders as [calc(...)] around the single text of the receiver, coerced
    under the method's operator; the operator itself is not rendered. *)
Theorem C9_no_operand_call :
  (forall (o : Operator) (this : Calc.t),
      toString (arithmetic o this [])
      = "calc(" +:+ coerce (multiplicative o) false (OCalc this) +:+ ")")
  /\ toString (add (calc (ONum (of_Z 1))) []) = "calc(1)"
  /\ toString (multiply (add (calc (ONum (of_Z 1))) [ONum (of_Z 2)]) [])
     = "calc((1 + 2))".
Proof.
  split; [|split].
  - intros o this. by destruct o.
  - vm_compute. reflexivity.
  - vm_compute. reflexivity.
Qed.

End CalcClaims.

(* ===================================================================== *)
(** ** The transform builder *)
(* ===================================================================== *)

Section TransformClaims.
Import Calc calc_ts Transform.

Lemma isNaN_not_zero (x : number) :
  isNaN x = true -> strict_eq x (of_Z 0) = false.
Proof. by destruct x. Qed.

Lemma NaN_operand_not_zero (v : Operand) :
  isNaN (Operand_toNumber v) = true -> Operand_is_zero v = false.
Proof. destruct v; [done| |done]. apply isNaN_not_zero. Qed.

Lemma length_toString_calc (c : Calc.t) : (2 <= String.length (Calc.toString c))%nat.
Proof.
  unfold Calc.toString. rewrite !length_append. cbn [String.length]. lia.
Qed.

Lemma coerceValue_zero v u : Operand_is_zero v = true -> coerceValue v u = "0".
Proof. unfold coerceValue. by intros ->. Qed.

Lemma coerceValue_number v u :
  Operand_is_zero v = false ->
  isNaN (Operand_toNumber v) = false ->
  coerceValue v u = JsNumber.toString (Operand_toNumber v) +:+ u.
Proof. unfold coerceValue. by intros -> ->. Qed.

Lemma coerceValue_other v u :
  isNaN (Operand_toNumber v) = true -> coerceValue v u = Operand_toString v.
Proof.
  intros H. unfold coerceValue. by rewrite (NaN_operand_not_zero _ H), H.
Qed.

(** C6. Unit coercion in the transform builder: a value strictly equal to
    the number 0 renders as ["0"]; any other value that [Number] reads as
    a number (finite ones in particular) renders as that number followed
    by the unit; a value that [Number] does not read as a number is
    rendered as it is.  Every method that coerces a value emits its CSS
    function around the coerced text, with [px] for lengths and [deg] for
    angles. *)
Theorem C6_transform_unit_coercion :
  (forall (v : Operand) (u : string),
      Operand_is_zero v = true -> coerceValue v u = "0")
  /\ (forall (v : Operand) (u : string),
      Operand_is_zero v = false ->
      isNaN (Operand_toNumber v) = false ->
      coerceValue v u = JsNumber.toString (Operand_toNumber v) +:+ u)
  /\ (forall (v : Operand) (u : string),
      isNaN (Operand_toNumber v) = true ->
      coerceValue v u = Operand_toString v)
  /\ (forall (m : UnitMethod) (this : Transform.t) (v : Operand),
      transforms (unit_method m this v)
      = (transforms this
         ++ [css_function m +:+ "(" +:+ coerceValue v (css_unit m) +:+ ")"])%list)
  /\ (forall (this : Transform.t) (x y z : number) (angle : Operand),
      transforms (rotate3d this x y z angle)
      = (transforms this
         ++ ["rotate3d(" +:+ JsNumber.toString x +:+ ", " +:+ JsNumber.toString y
               +:+ ", " +:+ JsNumber.toString z +:+ ", "
               +:+ coerceValue angle "deg" +:+ ")"])%list)
  /\ (forall (this : Transform.t) (x : Operand) (y : option Operand),
      transforms (skew this x y)
      = (transforms this
         ++ ["skew(" +:+ coerceValue x "deg" +:+ ", "
               +:+ coerceValue (default (ONum (of_Z 0)) y) "deg" +:+ ")"])%list
      /\ transforms (translate this x y)
         = (transforms this
            ++ ["translate(" +:+ coerceValue x "px" +:+ ", "
                  +:+ coerceValue (default (ONum (of_Z 0)) y) "px" +:+ ")"])%list)
  /\ (forall (this : Transform.t) (x y z : Operand),
      transforms (translate3d this x y z)
      = (transforms this
         ++ ["translate3d(" +:+ coerceValue x "px" +:+ ", "
               +:+ coerceValue y "px" +:+ ", " +:+ coerceValue z "px" +:+ ")"])%list)
  /\ Transform.toString (translateX transform (ONum (of_Z 10))) = "translateX(10px)"
  /\ Transform.toString (translateX transform (ONum (of_Z 0))) = "translateX(0)"
  /\ Transform.toString (translateX transform (OStr "var(--x)"))
     = "translateX(var(--x))".
Proof.
  split; [exact coerceValue_zero|].
  split; [exact coerceValue_number|].
  split; [exact coerceValue_other|].
  split; [by intros []|].
  split; [reflexivity|].
  split; [intros; split; reflexivity|].
  split; [reflexivity|].
  split; [vm_compute; reflexivity|].
  split; vm_compute; reflexivity.
Qed.

Lemma C6_transform_unit_coercion_witness :
  coerceValue (ONum (S754_zero true)) "px" = "0"
  /\ coerceValue (OStr "1.50") "deg" = "1.5deg"
  /\ coerceValue (ONum (of_Z 10)) "px"
     = JsNumber.toString (Operand_toNumber (ONum (of_Z 10))) +:+ "px"
  /\ coerceValue (OCalc (calc (ONum (of_Z 1)))) "px" = "calc(1)"
  /\ coerceValue (OStr "var(--x)") "px" = Operand_toString (OStr "var(--x)").
Proof.
  destruct C6_transform_unit_coercion as (Hz & Hn & Ho & _).
  split; [apply Hz; reflexivity|].
  split; [vm_compute; reflexivity|].
  split; [apply Hn; reflexivity|].
  split; [vm_compute; reflexivity|].
  apply Ho. vm_compute. reflexivity.
Defined.

(** C10. With the units of the transform builder, the coerced text is the
    bare ["0"] exactly when the value is strictly equal to the number 0.
    The string ["0"] is not: [Number] reads it as zero, so it gets the
    unit. *)
Theorem C10_only_number_zero_is_bare :
  (forall (v : Operand) (u : string),
      u = "px" \/ u = "deg" ->
      (coerceValue v u = "0" <-> Operand_is_zero v = true))
  /\ Operand_is_zero (OStr "0") = false
  /\ Operand_toNumber (OStr "0") = S754_zero false
  /\ Transform.toString (translateX transform (OStr "0")) = "translateX(0px)"
  /\ Transform.toString (translateX transform (ONum (of_Z 0))) = "translateX(0)".
Proof.
  split; [|split; [|split; [|split]]; vm_compute; reflexivity].
  intros v u Hu. split; [|apply coerceValue_zero].
  destruct (Operand_is_zero v) eqn:Hz; [done|].
  intros H. exfalso.
  destruct (isNaN (Operand_toNumber v)) eqn:Hn.
  - rewrite (coerceValue_other _ _ Hn) in H.
    destruct v as [s|x|c]; cbn in H.
    + subst s. vm_compute in Hn. discriminate Hn.
    + destruct x; try discriminate Hn. vm_compute in H. discriminate H.
    + pose proof (length_toString_calc c) as L. rewrite H in L.
      cbn in L. lia.
  - rewrite (coerceValue_number _ _ Hz Hn) in H.
    apply (f_equal String.length) in H. rewrite length_append in H.
    destruct Hu as [-> | ->]; cbn in H; lia.
Qed.

Lemma C10_only_number_zero_is_bare_witness :
  (coerceValue (ONum (S754_zero true)) "px" = "0"
   <-> Operand_is_zero (ONum (S754_zero true)) = true)
  /\ (coerceValue (OStr "0") "deg" = "0" <-> Operand_is_zero (OStr "0") = true)
  /\ coerceValue (OStr "0") "deg" = "0deg".
Proof.
  destruct C10_only_number_zero_is_bare as (H & _).
  split; [apply H; left; reflexivity|].
  split; [apply H; right; reflexivity|].
  vm_compute. reflexivity.
Defined.

End TransformClaims.

(* ===================================================================== *)
(** ** The heap *)
(* ===================================================================== *)

Section HeapFacts.
Import Heap.

Lemma get_insert (o : gmap string Value) k v : get (<[k := v]> o) k = v.
Proof. unfold get. by rewrite lookup_insert_eq. Qed.

Lemma get_insert_ne (o : gmap string Value) k k' v :
  k <> k' -> get (<[k := v]> o) k' = get o k'.
Proof. intros. unfold get. by rewrite lookup_insert_ne. Qed.

(** [Object.assign] writes the fields the source has and keeps the others. *)
Lemma get_union (src o : gmap string Value) k :
  get (src ∪ o) k = match src !! k with Some v => v | None => get o k end.
Proof.
  unfold get. rewrite lookup_union.
  destruct (src !! k), (o !! k); reflexivity.
Qed.

Lemma read_alloc_new o h : read (alloc o h).2 (alloc o h).1 = o.
Proof. unfold read, alloc. cbn [fst snd objects]. by rewrite lookup_insert_eq. Qed.

Lemma read_alloc_old o h l : l <> next h -> read (alloc o h).2 l = read h l.
Proof.
  intros. unfold read, alloc. cbn [fst snd objects]. by rewrite lookup_insert_ne.
Qed.

Lemma read_assign_same target src h :
  read (assign target src h) target = src ∪ read h target.
Proof. unfold read at 1, assign. cbn [objects]. by rewrite lookup_insert_eq. Qed.

Lemma read_assign_other target src h l :
  l <> target -> read (assign target src h) l = read h l.
Proof. intros. unfold read, assign. cbn [objects]. by rewrite lookup_insert_ne. Qed.

Lemma heap_ok_initial : heap_ok initial_heap.
Proof. unfold heap_ok. cbn. lia. Qed.

Lemma heap_ok_alloc o h : heap_ok h -> heap_ok (alloc o h).2.
Proof. unfold heap_ok. cbn. lia. Qed.

Lemma heap_ok_assign target src h : heap_ok h -> heap_ok (assign target src h).
Proof. done. Qed.

Lemma allocated_alloc o h ls : allocated h ls -> allocated (alloc o h).2 ls.
Proof.
  unfold allocated. intros H. eapply Forall_impl; [exact H|].
  cbn. lia.
Qed.

Lemma allocated_assign target src h ls :
  allocated h ls -> allocated (assign target src h) ls.
Proof. done. Qed.

Lemma allocated_fresh o h : heap_ok h -> allocated (alloc o h).2 [(alloc o h).1].
Proof. unfold heap_ok, allocated. intros. constructor; [cbn; lia|constructor]. Qed.

End HeapFacts.

(* ===================================================================== *)
(** ** The transition builder *)
(* ===================================================================== *)

Section TransitionFacts.
Import Heap Transition.

(** Induction on a builder and the builders chained to it. *)
Lemma Transition_ind' (P : Transition.t -> Prop) :
  (forall properties configuration others,
      Forall P others -> P (Transition.mk properties configuration others)) ->
  forall b, P b.
Proof.
  intros H. fix IH 1. intros [properties configuration others]. apply H.
  induction others as [|o others IHo]; constructor; [apply IH | exact IHo].
Qed.

Lemma Transition_locations_Forall (Q : loc -> Prop) properties c others :
  Forall Q (Transition_locations (Transition.mk properties c others))
  <-> Q c /\ Forall (fun o => Forall Q (Transition_locations o)) others.
Proof.
  cbn [Transition_locations]. rewrite Forall_cons, Forall_concat, Forall_fmap.
  reflexivity.
Qed.

(** Rendering reads the heap only at the builder's locations. *)
Lemma Transition_toString_frame (h h' : heap) (b : Transition.t) :
  Forall (fun l => read h' l = read h l) (Transition_locations b) ->
  toString h' b = toString h b.
Proof.
  induction b as [properties c others IH] using Transition_ind'.
  rewrite Transition_locations_Forall. intros [Hc Ho].
  cbn [toString]. rewrite Hc.
  assert (toString h' <$> others = toString h <$> others) as ->; [|reflexivity].
  apply Forall_fmap_ext_1.
  rewrite Forall_forall in IH, Ho. apply Forall_forall.
  intros o Hin. apply IH; [exact Hin|]. by apply Ho.
Qed.

Lemma Transition_transition_eq properties h :
  transition properties h
  = (Transition.mk properties (next h) [], (alloc (read h defaultConfig) h).2).
Proof. reflexivity. Qed.

Lemma Transition_duration_eq this d h :
  duration this d h
  = (Transition.mk (Transition.properties this) (next h) (otherTransitions this),
     (alloc (<["transitionDuration" := coerceToTime d None]>
               (read h (Transition.configuration this))) h).2).
Proof. reflexivity. Qed.

Lemma Transition_delay_eq this d h :
  delay this d h
  = (Transition.mk (Transition.properties this) (next h) (otherTransitions this),
     (alloc (<["transitionDelay" := coerceToTime d None]>
               (read h (Transition.configuration this))) h).2).
Proof. reflexivity. Qed.

Lemma Transition_timingFunction_eq this f h :
  timingFunction this f h
  = (Transition.mk (Transition.properties this) (next h) (otherTransitions this),
     (alloc (<["transitionTimingFunction" := f]>
               (read h (Transition.configuration this))) h).2).
Proof. reflexivity. Qed.

Lemma Transition_and_eq this ts h :
  and this ts h
  = (Transition.mk (Transition.properties this) (Transition.configuration this)
       (otherTransitions this ++ ts), h).
Proof. reflexivity. Qed.

(** A fresh object leaves every allocated builder's rendering alone. *)
Lemma Transition_toString_alloc o h b :
  allocated h (Transition_locations b) ->
  toString (alloc o h).2 b = toString h b.
Proof.
  intros Hb. apply Transition_toString_frame.
  eapply Forall_impl; [exact Hb|]. cbn beta. intros l Hl.
  apply read_alloc_old. lia.
Qed.

(** An assignment to a module-level object does too. *)
Lemma Transition_toString_assign target src h b :
  (target < first_free)%nat ->
  allocated h (Transition_locations b) ->
  toString (assign target src h) b = toString h b.
Proof.
  intros Ht Hb. apply Transition_toString_frame.
  eapply Forall_impl; [exact Hb|]. cbn beta. intros l Hl.
  apply read_assign_other. lia.
Qed.

(** The builders the interface returns are allocated. *)
Lemma Transition_transition_allocated properties h :
  heap_ok h ->
  allocated (transition properties h).2
            (Transition_locations (transition properties h).1).
Proof.
  intros Hh. rewrite Transition_transition_eq. cbn [fst snd].
  apply Transition_locations_Forall. split; [|constructor].
  unfold heap_ok in Hh. cbn. lia.
Qed.

Lemma Transition_setter_allocated o this h :
  heap_ok h ->
  allocated h (Transition_locations this) ->
  allocated (alloc o h).2
    (Transition_locations
       (Transition.mk (Transition.properties this) (next h) (otherTransitions this))).
Proof.
  intros Hh Hb. destruct this as [p c others].
  apply Transition_locations_Forall in Hb as [_ Ho].
  apply Transition_locations_Forall. split.
  - unfold heap_ok in Hh. cbn. lia.
  - cbn [otherTransitions]. eapply Forall_impl; [exact Ho|].
    intros o'. apply allocated_alloc.
Qed.

Lemma Transition_and_allocated this ts h :
  allocated h (Transition_locations this) ->
  Forall (fun b => allocated h (Transition_locations b)) ts ->
  allocated (and this ts h).2 (Transition_locations (and this ts h).1).
Proof.
  intros Hb Hts. rewrite Transition_and_eq. cbn [fst snd].
  destruct this as [p c others].
  apply Transition_locations_Forall in Hb as [Hc Ho].
  apply Transition_locations_Forall. split; [exact Hc|].
  cbn [otherTransitions]. apply Forall_app. by split.
Qed.

End TransitionFacts.

(* ===================================================================== *)
(** ** The animation builder *)
(* ===================================================================== *)

Section AnimationFacts.
Import Heap Animation.

Lemma Animation_ind' (P : Animation.t -> Prop) :
  (forall keyframes configuration others,
      Forall P others -> P (Animation.mk keyframes configuration others)) ->
  forall b, P b.
Proof.
  intros H. fix IH 1. intros [keyframes configuration others]. apply H.
  induction others as [|o others IHo]; constructor; [apply IH | exact IHo].
Qed.

Lemma Animation_locations_Forall (Q : loc -> Prop) keyframes c others :
  Forall Q (Animation_locations (Animation.mk keyframes c others))
  <-> Q c /\ Forall (fun o => Forall Q (Animation_locations o)) others.
Proof.
  cbn [Animation_locations]. rewrite Forall_cons, Forall_concat, Forall_fmap.
  reflexivity.
Qed.

Lemma Animation_toString_frame (h h' : heap) (b : Animation.t) :
  Forall (fun l => read h' l = read h l) (Animation_locations b) ->
  toString h' b = toString h b.
Proof.
  induction b as [keyframes c others IH] using Animation_ind'.
  rewrite Animation_locations_Forall. intros [Hc Ho].
  cbn [toString]. rewrite Hc.
  assert (toString h' <$> others = toString h <$> others) as ->; [|reflexivity].
  apply Forall_fmap_ext_1.
  rewrite Forall_forall in IH, Ho. apply Forall_forall.
  intros o Hin. apply IH; [exact Hin|]. by apply Ho.
Qed.

Lemma Animation_animation_eq keyframes h :
  animation keyframes h
  = (Animation.mk keyframes (next h) [], (alloc (read h config) h).2).
Proof. reflexivity. Qed.

(** Every setter allocates [{ ...this.configuration, field: value }] and
    keeps the keyframes and the chained animations. *)
Lemma Animation_setter_eq this v h :
  let made field value :=
    (Animation.mk (Animation.keyframes this) (next h) (otherAnimations this),
     (alloc (<[field := value]> (read h (Animation.configuration this))) h).2) in
  duration this v h = made "animationDuration" (coerceToTime v None)
  /\ timingFunction this v h = made "animationTimingFunction" v
  /\ delay this v h = made "animationDelay" (coerceToTime v None)
  /\ iterationCount this v h = made "animationIterationCount" v
  /\ direction this v h = made "animationDirection" v
  /\ fillMode this v h = made "animationFillMode" v
  /\ playState this v h = made "animationPlayState" v.
Proof. repeat split. Qed.

Lemma Animation_and_eq this ts h :
  and this ts h
  = (Animation.mk (Animation.keyframes this) (Animation.configuration this)
       (otherAnimations this ++ ts), h).
Proof. reflexivity. Qed.

Lemma Animation_toString_alloc o h b :
  allocated h (Animation_locations b) ->
  toString (alloc o h).2 b = toString h b.
Proof.
  intros Hb. apply Animation_toString_frame.
  eapply Forall_impl; [exact Hb|]. cbn beta. intros l Hl.
  apply read_alloc_old. lia.
Qed.

Lemma Animation_toString_assign target src h b :
  (target < first_free)%nat ->
  allocated h (Animation_locations b) ->
  toString (assign target src h) b = toString h b.
Proof.
  intros Ht Hb. apply Animation_toString_frame.
  eapply Forall_impl; [exact Hb|]. cbn beta. intros l Hl.
  apply read_assign_other. lia.
Qed.

Lemma Animation_animation_allocated keyframes h :
  heap_ok h ->
  allocated (animation keyframes h).2
            (Animation_locations (animation keyframes h).1).
Proof.
  intros Hh. rewrite Animation_animation_eq. cbn [fst snd].
  apply Animation_locations_Forall. split; [|constructor].
  unfold heap_ok in Hh. cbn. lia.
Qed.

Lemma Animation_setter_allocated o this h :
  heap_ok h ->
  allocated h (Animation_locations this) ->
  allocated (alloc o h).2
    (Animation_locations
       (Animation.mk (Animation.keyframes this) (next h) (otherAnimations this))).
Proof.
  intros Hh Hb. destruct this as [p c others].
  apply Animation_locations_Forall in Hb as [_ Ho].
  apply Animation_locations_Forall. split.
  - unfold heap_ok in Hh. cbn. lia.
  - cbn [otherAnimations]. eapply Forall_impl; [exact Ho|].
    intros o'. apply allocated_alloc.
Qed.

Lemma Animation_and_allocated this ts h :
  allocated h (Animation_locations this) ->
  Forall (fun b => allocated h (Animation_locations b)) ts ->
  allocated (and this ts h).2 (Animation_locations (and this ts h).1).
Proof.
  intros Hb Hts. rewrite Animation_and_eq. cbn [fst snd].
  destruct this as [p c others].
  apply Animation_locations_Forall in Hb as [Hc Ho].
  apply Animation_locations_Forall. split; [exact Hc|].
  cbn [otherAnimations]. apply Forall_app. by split.
Qed.

End AnimationFacts.

(* ===================================================================== *)
(** ** Rendering, time coercion and the default records *)
(* ===================================================================== *)

Section Worlds.
Import Heap.

Lemma Transition_call_ok c h :
  heap_ok h ->
  Forall (fun b => allocated h (Transition_locations b)) (Transition_uses c) ->
  heap_ok (Transition_call c h).2
  /\ allocated (Transition_call c h).2
       (Transition_locations (Transition_call c h).1)
  /\ (forall ls, allocated h ls -> allocated (Transition_call c h).2 ls).
Proof.
  intros Hh Hu.
  destruct c as [properties|this d|this f|this d|this ts];
    cbn [Transition_call Transition_uses] in *.
  - split; [by apply heap_ok_alloc|].
    split; [by apply Transition_transition_allocated|].
    intros ls. apply allocated_alloc.
  - apply Forall_cons in Hu as [Hb _]. rewrite Transition_duration_eq.
    cbn [fst snd]. split; [by apply heap_ok_alloc|].
    split; [by apply Transition_setter_allocated|].
    intros ls. apply allocated_alloc.
  - apply Forall_cons in Hu as [Hb _]. rewrite Transition_timingFunction_eq.
    cbn [fst snd]. split; [by apply heap_ok_alloc|].
    split; [by apply Transition_setter_allocated|].
    intros ls. apply allocated_alloc.
  - apply Forall_cons in Hu as [Hb _]. rewrite Transition_delay_eq.
    cbn [fst snd]. split; [by apply heap_ok_alloc|].
    split; [by apply Transition_setter_allocated|].
    intros ls. apply allocated_alloc.
  - apply Forall_cons in Hu as [Hb Hts].
    split; [exact Hh|]. split; [by apply Transition_and_allocated|].
    intros ls Hls. exact Hls.
Qed.

Lemma Animation_call_ok c h :
  heap_ok h ->
  Forall (fun b => allocated h (Animation_locations b)) (Animation_uses c) ->
  heap_ok (Animation_call c h).2
  /\ allocated (Animation_call c h).2
       (Animation_locations (Animation_call c h).1)
  /\ (forall ls, allocated h ls -> allocated (Animation_call c h).2 ls).
Proof.
  intros Hh Hu.
  assert (S : forall this field value,
             allocated h (Animation_locations this) ->
             let r := (Animation.mk (Animation.keyframes this) (next h)
                         (Animation.otherAnimations this),
                       (alloc (<[field := value]>
                                 (read h (Animation.configuration this))) h).2) in
             heap_ok r.2
             /\ allocated r.2 (Animation_locations r.1)
             /\ (forall ls, allocated h ls -> allocated r.2 ls)).
  { intros this field value Hb r. subst r. cbn [fst snd].
    split; [by apply heap_ok_alloc|].
    split; [by apply Animation_setter_allocated|].
    intros ls. apply allocated_alloc. }
  destruct c as [keyframes|this v|this v|this v|this v|this v|this v|this v|this ts];
    cbn [Animation_call Animation_uses] in *;
    try (apply Forall_cons in Hu as [Hb Hts];
         destruct (Animation_setter_eq this v h) as (E1 & E2 & E3 & E4 & E5 & E6 & E7)).
  - split; [by apply heap_ok_alloc|].
    split; [by apply Animation_animation_allocated|].
    intros ls. apply allocated_alloc.
  - rewrite E1. by apply S.
  - rewrite E2. by apply S.
  - rewrite E3. by apply S.
  - rewrite E4. by apply S.
  - rewrite E5. by apply S.
  - rewrite E6. by apply S.
  - rewrite E7. by apply S.
  - apply Forall_cons in Hu as [Hb Hts].
    split; [exact Hh|]. split; [by apply Animation_and_allocated|].
    intros ls Hls. exact Hls.
Qed.

Lemma Forall_elem_of_weaken {A} (P : A -> Prop) (l us : list A) :
  Forall P l -> Forall (fun b => b ∈ l) us -> Forall P us.
Proof.
  intros Hl Hus. rewrite Forall_forall in Hl.
  eapply Forall_impl; [exact Hus|]. exact Hl.
Qed.

Lemma step_world_ok w w' : world_ok w -> step w w' -> world_ok w'.
Proof.
  intros (Hh & Ht & Ha) Hstep.
  destruct Hstep as [c w Hu|c w Hu|newConfig w|newConfig w];
    unfold world_ok; cbn [heap_of transitions animations].
  - destruct (Transition_call_ok c (heap_of w) Hh) as (Hh' & Hb & Hmono).
    { by eapply Forall_elem_of_weaken. }
    split; [exact Hh'|]. split.
    + constructor; [exact Hb|].
      eapply Forall_impl; [exact Ht|]. intros b. apply Hmono.
    + eapply Forall_impl; [exact Ha|]. intros b. apply Hmono.
  - destruct (Animation_call_ok c (heap_of w) Hh) as (Hh' & Hb & Hmono).
    { by eapply Forall_elem_of_weaken. }
    split; [exact Hh'|]. split.
    + eapply Forall_impl; [exact Ht|]. intros b. apply Hmono.
    + constructor; [exact Hb|].
      eapply Forall_impl; [exact Ha|]. intros b. apply Hmono.
  - done.
  - done.
Qed.

(** Every builder a program holds has configuration objects of its own,
    none of them a module-level object. *)
Lemma reachable_world_ok w : reachable w -> world_ok w.
Proof.
  unfold reachable. intros H.
  eapply (rtc_ind_r world_ok); [|clear w H|exact H].
  - split; [apply heap_ok_initial|]. split; constructor.
  - intros w1 w2 _ Hstep IH. by eapply step_world_ok.
Qed.

End Worlds.

Section BuilderClaims.
Import Heap.

Lemma Transition_toString_and (h : heap) this ts :
  Transition.toString h (Transition.and this ts h).1
  = join ", " (Transition.toString h this :: (Transition.toString h <$> ts)).
Proof.
  destruct this as [properties c others].
  rewrite Transition_and_eq.
  cbn [fst Transition.toString Transition.properties Transition.configuration
       Transition.otherTransitions].
  rewrite fmap_app. symmetry. apply join_flatten.
Qed.

Lemma Animation_toString_and (h : heap) this ts :
  Animation.toString h (Animation.and this ts h).1
  = join ", " (Animation.toString h this :: (Animation.toString h <$> ts)).
Proof.
  destruct this as [keyframes c others].
  rewrite Animation_and_eq.
  cbn [fst Animation.toString Animation.keyframes Animation.configuration
       Animation.otherAnimations].
  rewrite fmap_app. symmetry. apply join_flatten.
Qed.

(** C4, as amended.  A transition renders one pair per property, the
    property name first and the configuration fields after it; an
    animation renders one pair per keyframe name, the configuration fields
    first and the keyframe name after them.  In both, the pairs are joined
    with a comma, followed by the rendering of each builder chained with
    [and], all joined with a comma; so the rendering of [b.and(...ts)] is
    the rendering of [b] followed by those of [ts], comma-joined. *)
Theorem C4_builder_rendering :
  (forall (h : heap) (properties : list string) (c : loc)
          (others : list Transition.t),
      Transition.toString h (Transition.mk properties c others)
      = join ", "
          (join ", "
             ((fun property => property +:+ " " +:+ Transition.cfg (read h c))
                <$> properties)
           :: (Transition.toString h <$> others)))
  /\ (forall (h : heap) (keyframes : list string) (c : loc)
             (others : list Animation.t),
      Animation.toString h (Animation.mk keyframes c others)
      = join ", "
          (join ", "
             ((fun keyframe => Animation.cfg (read h c) +:+ " " +:+ keyframe)
                <$> keyframes)
           :: (Animation.toString h <$> others)))
  /\ (forall (h : heap) (this : Transition.t) (ts : list Transition.t),
      (Transition.and this ts h).2 = h
      /\ Transition.toString h (Transition.and this ts h).1
         = join ", " (Transition.toString h this :: (Transition.toString h <$> ts)))
  /\ (forall (h : heap) (this : Animation.t) (ts : list Animation.t),
      (Animation.and this ts h).2 = h
      /\ Animation.toString h (Animation.and this ts h).1
         = join ", " (Animation.toString h this :: (Animation.toString h <$> ts)))
  /\ (forall o : obj,
      Transition.cfg o
      = join " "
          (Value_toString <$>
             List.filter Value_toBoolean
               [get o "transitionDuration"; get o "transitionTimingFunction";
                get o "transitionDelay"])
      /\ Animation.cfg o
         = join " "
             (Value_toString <$>
                List.filter Value_toBoolean
                  [get o "animationDuration"; get o "animationTimingFunction";
                   get o "animationDelay"; get o "animationIterationCount";
                   get o "animationDirection"; get o "animationFillMode";
                   get o "animationPlayState"])).
Proof.
  split; [reflexivity|]. split; [reflexivity|].
  split; [intros; split; [reflexivity|apply Transition_toString_and]|].
  split; [intros; split; [reflexivity|apply Animation_toString_and]|].
  intros o. split; reflexivity.
Qed.

(** C4, as stated, fails for animations: the keyframe name comes last.
    This is the expectation of the package's own test. *)
Lemma C4_animation_renders_name_last :
  (let '(a, h) :=
     (a0 <- Animation.animation ["keyframe1"; "keyframe2"] ;;
      a1 <- Animation.duration a0 (VStr "1s") ;;
      Animation.timingFunction a1 (VStr "ease-in")) initial_heap in
   Animation.toString h a = "1s ease-in keyframe1, 1s ease-in keyframe2")
  /\ ~ (forall (h : heap) (keyframes : list string) (c : loc)
               (others : list Animation.t),
          Animation.toString h (Animation.mk keyframes c others)
          = join ", "
              (join ", "
                 ((fun keyframe => keyframe +:+ " " +:+ Animation.cfg (read h c))
                    <$> keyframes)
               :: (Animation.toString h <$> others))).
Proof.
  split; [vm_compute; reflexivity|].
  intros H.
  specialize (H initial_heap ["keyframe1"] animation_config []).
  vm_compute in H. discriminate H.
Qed.

Lemma coerceToUnit_number (v : Value) (unit : string) :
  isNaN (Value_toNumber v) = false ->
  coerceToUnit v unit = VStr (JsNumber.toString (Value_toNumber v) +:+ unit).
Proof. unfold coerceToUnit. by intros ->. Qed.

Lemma coerceToUnit_other (v : Value) (unit : string) :
  isNaN (Value_toNumber v) = true -> coerceToUnit v unit = v.
Proof. unfold coerceToUnit. by intros ->. Qed.

(** C7, as amended.  [duration(d)] and [delay(d)] store
    [coerceToUnit(d, 'ms')] in the field of a new configuration object.
    A number other than [NaN] is stored as its text followed by ["ms"]; a
    string that [Number] reads as a number is stored as that number's text
    followed by ["ms"] (["-5"] becomes ["-5ms"]); a string that [Number]
    does not read as a number is stored unchanged, and so is the number
    [NaN]. *)
Theorem C7_time_coercion :
  (forall (this : Transition.t) (d : Value) (h : heap),
      get (read (Transition.duration this d h).2
                (Transition.configuration (Transition.duration this d h).1))
          "transitionDuration"
      = coerceToUnit d "ms"
      /\ get (read (Transition.delay this d h).2
                   (Transition.configuration (Transition.delay this d h).1))
             "transitionDelay"
         = coerceToUnit d "ms")
  /\ (forall (this : Animation.t) (d : Value) (h : heap),
      get (read (Animation.duration this d h).2
                (Animation.configuration (Animation.duration this d h).1))
          "animationDuration"
      = coerceToUnit d "ms"
      /\ get (read (Animation.delay this d h).2
                   (Animation.configuration (Animation.delay this d h).1))
             "animationDelay"
         = coerceToUnit d "ms")
  /\ (forall x : number,
      isNaN x = false ->
      coerceToUnit (VNum x) "ms" = VStr (JsNumber.toString x +:+ "ms"))
  /\ (forall s : string,
      isNaN (JsNumber.ofString s) = false ->
      coerceToUnit (VStr s) "ms"
      = VStr (JsNumber.toString (JsNumber.ofString s) +:+ "ms"))
  /\ (forall s : string,
      isNaN (JsNumber.ofString s) = true ->
      coerceToUnit (VStr s) "ms" = VStr s)
  /\ coerceToUnit (VNum NaN) "ms" = VNum NaN
  /\ coerceToUnit (VStr "-5") "ms" = VStr "-5ms".
Proof.
  split; [|split].
  - intros this d h. split.
    + rewrite Transition_duration_eq. cbn [fst snd Transition.configuration].
      rewrite (read_alloc_new _ h). apply get_insert.
    + rewrite Transition_delay_eq. cbn [fst snd Transition.configuration].
      rewrite (read_alloc_new _ h). apply get_insert.
  - intros this d h.
    destruct (Animation_setter_eq this d h) as (-> & _ & -> & _).
    cbn [fst snd Animation.configuration].
    rewrite !(read_alloc_new _ h). split; apply get_insert.
  - split; [intros x; apply (coerceToUnit_number (VNum x))|].
    split; [intros s; apply (coerceToUnit_number (VStr s))|].
    split; [intros s; apply (coerceToUnit_other (VStr s))|].
    split; [reflexivity|]. vm_compute. reflexivity.
Qed.

Lemma C7_time_coercion_witness :
  coerceToUnit (VNum (of_Z 300)) "ms" = VStr "300ms"
  /\ coerceToUnit (VStr "1.50") "ms" = VStr "1.5ms"
  /\ coerceToUnit (VStr "1s") "ms" = VStr "1s"
  /\ (let '(b, h) := (b0 <- Transition.transition ["opacity"] ;;
                      Transition.delay b0 (VStr "-5")) initial_heap in
      Transition.toString h b = "opacity 300ms cubic-bezier(0.4, 0, 0.2, 1) -5ms").
Proof.
  destruct C7_time_coercion as (_ & _ & Hn & Hs & Ho & _).
  split; [rewrite (Hn (of_Z 300) eq_refl); vm_compute; reflexivity|].
  split; [rewrite (Hs "1.50"); vm_compute; reflexivity|].
  split; [apply (Ho "1s"); vm_compute; reflexivity|].
  vm_compute. reflexivity.
Defined.

(** C7, as stated, fails at the number [NaN]: it is stored as it is, not
    as ["NaNms"], and the rendering then leaves the field out. *)
Lemma C7_NaN_is_stored_unchanged :
  (let '(b, h) := (b0 <- Transition.transition ["opacity"] ;;
                   Transition.duration b0 (VNum NaN)) initial_heap in
   get (read h (Transition.configuration b)) "transitionDuration" = VNum NaN
   /\ Transition.toString h b = "opacity cubic-bezier(0.4, 0, 0.2, 1)")
  /\ ~ (forall x : number,
          coerceToUnit (VNum x) "ms" = VStr (JsNumber.toString x +:+ "ms")).
Proof.
  split; [vm_compute; split; reflexivity|].
  intros H. specialize (H NaN). discriminate H.
Qed.

(** C8. Each override function writes the fields of the record it is given
    into the family's module-level default object and keeps the other
    fields; the factory gives a new builder a configuration object of its
    own, at a location not in use before, holding the fields the default
    object has at that moment.  So, in every world a program can reach, an
    override leaves the rendering of every builder obtained so far
    unchanged, and a builder made after the override renders with the
    merged record. *)
Theorem C8_default_overrides :
  (* transitions *)
  (forall (newConfig : obj) (h : heap) (k : string),
      get (read (Transition.transitionConfigDefaults newConfig h).2
                Transition.defaultConfig) k
      = match newConfig !! k with
        | Some v => v
        | None => get (read h Transition.defaultConfig) k
        end)
  /\ (forall (properties : list string) (h : heap),
      Transition.configuration (Transition.transition properties h).1 = next h
      /\ read (Transition.transition properties h).2
              (Transition.configuration (Transition.transition properties h).1)
         = read h Transition.defaultConfig)
  /\ (forall (w : world) (b : Transition.t) (newConfig : obj),
      reachable w ->
      b ∈ transitions w ->
      Transition.toString
        (Transition.transitionConfigDefaults newConfig (heap_of w)).2 b
      = Transition.toString (heap_of w) b)
  /\ (forall (newConfig : obj) (h : heap) (properties : list string),
      let h' := (Transition.transitionConfigDefaults newConfig h).2 in
      Transition.toString (Transition.transition properties h').2
                          (Transition.transition properties h').1
      = join ", "
          ((fun property =>
              property +:+ " " +:+
              Transition.cfg (newConfig ∪ read h Transition.defaultConfig))
             <$> properties))
  (* animations *)
  /\ (forall (newConfig : obj) (h : heap) (k : string),
      get (read (Animation.animationConfigDefaults newConfig h).2
                Animation.config) k
      = match newConfig !! k with
        | Some v => v
        | None => get (read h Animation.config) k
        end)
  /\ (forall (keyframes : list string) (h : heap),
      Animation.configuration (Animation.animation keyframes h).1 = next h
      /\ read (Animation.animation keyframes h).2
              (Animation.configuration (Animation.animation keyframes h).1)
         = read h Animation.config)
  /\ (forall (w : world) (b : Animation.t) (newConfig : obj),
      reachable w ->
      b ∈ animations w ->
      Animation.toString
        (Animation.animationConfigDefaults newConfig (heap_of w)).2 b
      = Animation.toString (heap_of w) b)
  /\ (forall (newConfig : obj) (h : heap) (keyframes : list string),
      let h' := (Animation.animationConfigDefaults newConfig h).2 in
      Animation.toString (Animation.animation keyframes h').2
                         (Animation.animation keyframes h').1
      = join ", "
          ((fun keyframe =>
              Animation.cfg (newConfig ∪ read h Animation.config)
              +:+ " " +:+ keyframe)
             <$> keyframes)).
Proof.
  repeat apply conj.
  - intros newConfig h k. cbn [snd Transition.transitionConfigDefaults].
    rewrite read_assign_same. apply get_union.
  - intros properties h. split; [reflexivity|].
    rewrite Transition_transition_eq. cbn [fst snd Transition.configuration].
    apply (read_alloc_new _ h).
  - intros w b newConfig Hw Hb.
    destruct (reachable_world_ok w Hw) as (_ & Ht & _).
    rewrite Forall_forall in Ht.
    apply Transition_toString_assign; [|by apply Ht].
    unfold Transition.defaultConfig, transition_defaultConfig, first_free. lia.
  - intros newConfig h properties h'.
    rewrite Transition_transition_eq. cbn [fst snd Transition.toString].
    rewrite (read_alloc_new _ h'). subst h'.
    cbn [snd Transition.transitionConfigDefaults].
    by rewrite read_assign_same.
  - intros newConfig h k. cbn [snd Animation.animationConfigDefaults].
    rewrite read_assign_same. apply get_union.
  - intros keyframes h. split; [reflexivity|].
    rewrite Animation_animation_eq. cbn [fst snd Animation.configuration].
    apply (read_alloc_new _ h).
  - intros w b newConfig Hw Hb.
    destruct (reachable_world_ok w Hw) as (_ & _ & Ha).
    rewrite Forall_forall in Ha.
    apply Animation_toString_assign; [|by apply Ha].
    unfold Animation.config, animation_config, first_free. lia.
  - intros newConfig h keyframes h'.
    rewrite Animation_animation_eq. cbn [fst snd Animation.toString].
    rewrite (read_alloc_new _ h'). subst h'.
    cbn [snd Animation.animationConfigDefaults].
    by rewrite read_assign_same.
Qed.

(** A builder made before [transitionConfigDefaults({ transitionDuration:
    '1s' })] keeps its rendering; one made after it uses the new duration. *)
Lemma C8_default_overrides_witness :
  let h1 := (Transition.transition ["opacity"] initial_heap).2 in
  let b1 := (Transition.transition ["opacity"] initial_heap).1 in
  let newConfig : obj := <["transitionDuration" := VStr "1s"]> ∅ in
  let h2 := (Transition.transitionConfigDefaults newConfig h1).2 in
  Transition.toString h2 b1 = Transition.toString h1 b1
  /\ Transition.toString h1 b1 = "opacity 300ms cubic-bezier(0.4, 0, 0.2, 1)"
  /\ Transition.toString (Transition.transition ["opacity"] h2).2
                         (Transition.transition ["opacity"] h2).1
     = "opacity 1s cubic-bezier(0.4, 0, 0.2, 1)".
Proof.
  intros h1 b1 newConfig h2.
  destruct C8_default_overrides as (_ & _ & Hframe & _).
  split; [|split; vm_compute; reflexivity].
  apply (Hframe (World h1 [b1] []) b1 newConfig).
  - apply rtc_once.
    apply (step_Transition (t_transition ["opacity"]) (World initial_heap [] [])).
    constructor.
  - apply list_elem_of_here.
Defined.

End BuilderClaims.

(* ===================================================================== *)
(** ** Which strings [Number] reads as numbers *)
(* ===================================================================== *)

Section NumericStrings.
Import JsNumber.

Lemma all_chars_app p (a b : string) :
  all_chars p (a +:+ b) = all_chars p a && all_chars p b.
Proof.
  induction a as [|c a IH]; [reflexivity|].
  rewrite append_String. cbn [all_chars]. by rewrite IH, andb_assoc.
Qed.

Lemma read_sign_eq (s : string) :
  read_sign s
  = match s with
    | String c r =>
        if Ascii.eqb c "-" then (true, r)
        else if Ascii.eqb c "+" then (false, r)
        else (false, s)
    | EmptyString => (false, s)
    end.
Proof.
  destruct s as [|c r]; [reflexivity|].
  destruct c as [[] [] [] [] [] [] [] []]; reflexivity.
Qed.

Lemma unsigned_decimal_eq (neg : bool) (s : string) :
  unsigned_decimal neg s
  = let '(i, ilen, r) := read_digits 10 s 0 0 in
    let '(f, flen, r') :=
      match r with
      | String c r1 =>
          if Ascii.eqb c "." then read_digits 10 r1 i 0 else (i, 0, r)
      | EmptyString => (i, 0, r)
      end in
    if ilen + flen =? 0 then NaN
    else
      match exponent_part r' with
      | Some e => of_decimal neg f (e - flen)
      | None => NaN
      end.
Proof.
  unfold unsigned_decimal.
  destruct (read_digits 10 s 0 0) as [[i ilen] r].
  destruct r as [|c r1]; [reflexivity|].
  destruct c as [[] [] [] [] [] [] [] []]; reflexivity.
Qed.

Lemma numeric_literal_eq (s : string) :
  numeric_literal s
  = let decimal :=
      let '(neg, r) := read_sign s in
      if String.eqb r "Infinity" then S754_infinity neg
      else unsigned_decimal neg r in
    match s with
    | String c0 (String c r) =>
        if Ascii.eqb c0 "0" then
          match radix_of_prefix c with
          | Some base => non_decimal base r
          | None => decimal
          end
        else decimal
    | _ => decimal
    end.
Proof.
  unfold numeric_literal.
  destruct s as [|c0 r0]; [reflexivity|].
  destruct c0 as [[] [] [] [] [] [] [] []]; destruct r0; reflexivity.
Qed.

Lemma digit_numeric base c d : digit_in base c = Some d -> numeric_char c = true.
Proof.
  unfold numeric_char, digit_in.
  set (n := Z.of_N (N_of_ascii c)).
  destruct ((48 <=? n) && (n <=? 57)) eqn:E1.
  { intros _. assert ((n - 48 <? 16) = true) as -> by lia.
    by rewrite orb_true_r. }
  destruct ((97 <=? n) && (n <=? 102)) eqn:E2.
  { intros _. assert ((n - 87 <? 16) = true) as -> by lia.
    by rewrite orb_true_r. }
  destruct ((65 <=? n) && (n <=? 70)) eqn:E3.
  { intros _. assert ((n - 55 <? 16) = true) as -> by lia.
    by rewrite orb_true_r. }
  rewrite Z.ltb_irrefl. discriminate.
Qed.

(** The digits that [read_digits] consumes are numeric characters. *)
Lemma read_digits_chars base s acc len v len' rest :
  read_digits base s acc len = (v, len', rest) ->
  all_chars numeric_char s = all_chars numeric_char rest.
Proof.
  revert acc len. induction s as [|c s IH]; intros acc len H; cbn in H.
  - by injection H as _ _ <-.
  - destruct (digit_in base c) as [d|] eqn:E.
    + cbn [all_chars]. rewrite (digit_numeric _ _ _ E). cbn [andb].
      by eapply IH.
    + by injection H as _ _ <-.
Qed.

Lemma read_sign_chars s neg r :
  read_sign s = (neg, r) ->
  all_chars numeric_char s = all_chars numeric_char r.
Proof.
  rewrite read_sign_eq. destruct s as [|c s]; [by intros [= _ <-]|].
  destruct (Ascii.eqb c "-") eqn:E1.
  { apply Ascii.eqb_eq in E1 as ->. by intros [= _ <-]. }
  destruct (Ascii.eqb c "+") eqn:E2.
  { apply Ascii.eqb_eq in E2 as ->. by intros [= _ <-]. }
  by intros [= _ <-].
Qed.

Lemma exponent_part_chars s e :
  exponent_part s = Some e -> all_chars numeric_char s = true.
Proof.
  destruct s as [|c r]; [done|]. cbn [exponent_part].
  destruct (Ascii.eqb c "e" || Ascii.eqb c "E") eqn:Ec; [|discriminate].
  destruct (read_sign r) as [neg r'] eqn:Es.
  destruct (read_digits 10 r' 0 0) as [[v len] rest] eqn:Ed.
  destruct rest; [|discriminate]. intros _.
  cbn [all_chars].
  rewrite (read_sign_chars _ _ _ Es), (read_digits_chars _ _ _ _ _ _ _ Ed).
  rewrite andb_true_r.
  apply orb_true_iff in Ec as [Ec|Ec]; apply Ascii.eqb_eq in Ec as ->; reflexivity.
Qed.

Lemma unsigned_decimal_foreign neg s :
  foreign s -> unsigned_decimal neg s = NaN.
Proof.
  unfold foreign. intros Hs. rewrite unsigned_decimal_eq.
  destruct (read_digits 10 s 0 0) as [[i ilen] r] eqn:E1.
  rewrite (read_digits_chars _ _ _ _ _ _ _ E1) in Hs.
  assert (T : forall f flen r',
             all_chars numeric_char r' = false ->
             (if ilen + flen =? 0 then NaN
              else match exponent_part r' with
                   | Some e => of_decimal neg f (e - flen)
                   | None => NaN
                   end) = NaN).
  { intros f flen r' Hr'. destruct (ilen + flen =? 0); [reflexivity|].
    destruct (exponent_part r') as [e|] eqn:Ee; [|reflexivity].
    apply exponent_part_chars in Ee. congruence. }
  destruct r as [|c r1]; [discriminate Hs|].
  destruct (Ascii.eqb c ".") eqn:Ec.
  - apply Ascii.eqb_eq in Ec as ->.
    destruct (read_digits 10 r1 i 0) as [[f flen] r'] eqn:E2.
    apply T. rewrite <- (read_digits_chars _ _ _ _ _ _ _ E2). exact Hs.
  - by apply T.
Qed.

Lemma numeric_literal_foreign s : foreign s -> numeric_literal s = NaN.
Proof.
  intros Hs. rewrite numeric_literal_eq.
  assert (D : (let '(neg, r) := read_sign s in
               if String.eqb r "Infinity" then S754_infinity neg
               else unsigned_decimal neg r) = NaN).
  { destruct (read_sign s) as [neg r] eqn:Es.
    unfold foreign in Hs. rewrite (read_sign_chars _ _ _ Es) in Hs.
    destruct (String.eqb r "Infinity") eqn:Ei.
    - apply String.eqb_eq in Ei as ->. discriminate Hs.
    - by apply unsigned_decimal_foreign. }
  cbv zeta. destruct s as [|c0 [|c r]]; try exact D.
  destruct (Ascii.eqb c0 "0") eqn:E0; [|exact D].
  destruct (radix_of_prefix c) as [base|] eqn:Ep; [|exact D].
  unfold non_decimal.
  destruct (read_digits base r 0 0) as [[v len] rest] eqn:Ed.
  destruct rest; [|reflexivity].
  exfalso. unfold foreign in Hs. cbn [all_chars] in Hs.
  rewrite (read_digits_chars _ _ _ _ _ _ _ Ed) in Hs.
  apply Ascii.eqb_eq in E0 as ->.
  assert (numeric_char c = true) as Hc.
  { unfold numeric_char. rewrite Ep. by rewrite orb_true_r. }
  rewrite Hc in Hs. discriminate Hs.
Qed.

Lemma trim_start_chars p s :
  (forall c, is_space c = true -> p c = true) ->
  all_chars p (trim_start s) = all_chars p s.
Proof.
  intros Hp. induction s as [|c s IH]; [reflexivity|].
  cbn [trim_start]. destruct (is_space c) eqn:E; [|reflexivity].
  cbn [all_chars]. by rewrite (Hp _ E), IH.
Qed.

Lemma trim_end_chars p s :
  (forall c, is_space c = true -> p c = true) ->
  all_chars p (trim_end s) = all_chars p s.
Proof.
  intros Hp. induction s as [|c s IH]; [reflexivity|].
  cbn [trim_end all_chars]. rewrite <- IH.
  destruct (trim_end s) as [|c' t]; [|reflexivity].
  destruct (is_space c) eqn:E; [|reflexivity].
  by rewrite (Hp _ E).
Qed.

Lemma space_numeric c : is_space c = true -> numeric_char c = true.
Proof. unfold numeric_char. by intros ->. Qed.

(** A string with a character that no numeric text has is not a number. *)
Lemma ofString_foreign s : foreign s -> ofString s = NaN.
Proof.
  intros Hs. unfold ofString.
  assert (foreign (trim_end (trim_start s))) as Ht.
  { unfold foreign.
    rewrite (trim_end_chars _ _ space_numeric).
    by rewrite (trim_start_chars _ _ space_numeric). }
  destruct (trim_end (trim_start s)) as [|c t] eqn:E; [discriminate Ht|].
  by apply numeric_literal_foreign.
Qed.

Lemma trim_start_blank s : blank s = true -> trim_start s = "".
Proof.
  unfold blank. induction s as [|c s IH]; [reflexivity|].
  cbn [all_chars trim_start]. intros [-> Hs]%andb_true_iff. by apply IH.
Qed.

(** A blank string is the number 0. *)
Lemma ofString_blank s : blank s = true -> ofString s = S754_zero false.
Proof. intros Hs. unfold ofString. by rewrite (trim_start_blank _ Hs). Qed.

Lemma foreign_app_r (a u : string) : foreign u -> foreign (a +:+ u).
Proof.
  unfold foreign. intros Hu. by rewrite all_chars_app, Hu, andb_false_r.
Qed.

Lemma foreign_app_l (a b : string) : foreign a -> foreign (a +:+ b).
Proof. unfold foreign. intros Ha. by rewrite all_chars_app, Ha. Qed.

End NumericStrings.

(* ===================================================================== *)
(** ** Unit coercion on strings, units and expressions *)
(* ===================================================================== *)

Section Coercions.
Import Calc calc_ts Transform.

Lemma coerceToUnit_foreign (s u : string) :
  foreign s -> coerceToUnit (VStr s) u = VStr s.
Proof.
  intros Hs. pose proof (ofString_foreign s Hs) as E.
  apply coerceToUnit_other. cbn [Value_toNumber]. by rewrite E.
Qed.

Lemma coerceValue_foreign (s u : string) :
  foreign s -> coerceValue (OStr s) u = s.
Proof.
  intros Hs. pose proof (ofString_foreign s Hs) as E.
  rewrite coerceValue_other; [reflexivity|].
  cbn [Operand_toNumber]. by rewrite E.
Qed.

(** X1. A string with a character that no numeric text has (a letter
    such as [p], [m], [s] or [v], a parenthesis, a percent sign) passes
    through every coercion unchanged, whatever the unit. *)
Theorem coercion_keeps_foreign_string (s u : string) :
  foreign s ->
  coerceToUnit (VStr s) u = VStr s
  /\ coerceValue (OStr s) u = s.
Proof.
  intros Hs. split; [by apply coerceToUnit_foreign|by apply coerceValue_foreign].
Qed.

Lemma coercion_keeps_foreign_string_witness :
  coerceToUnit (VStr "var(--delay)") "ms" = VStr "var(--delay)"
  /\ coerceValue (OStr "var(--delay)") "px" = "var(--delay)".
Proof.
  split.
  - apply (coercion_keeps_foreign_string "var(--delay)" "ms"). reflexivity.
  - apply (coercion_keeps_foreign_string "var(--delay)" "px"). reflexivity.
Defined.

(** X2. A blank string, empty or made of white space, is read as the
    number 0: every coercion turns it into ["0"] followed by the unit. *)
Theorem coercion_of_blank_string (s u : string) :
  blank s = true ->
  coerceToUnit (VStr s) u = VStr ("0" +:+ u)
  /\ coerceValue (OStr s) u = "0" +:+ u.
Proof.
  intros Hs. pose proof (ofString_blank s Hs) as E. split.
  - unfold coerceToUnit. cbn [Value_toNumber]. by rewrite E.
  - unfold coerceValue. cbn [Operand_is_zero Operand_toNumber]. by rewrite E.
Qed.

Lemma coercion_of_blank_string_witness :
  coerceToUnit (VStr "  ") "ms" = VStr "0ms"
  /\ coerceValue (OStr "") "deg" = "0deg".
Proof.
  split.
  - apply (coercion_of_blank_string "  " "ms"). reflexivity.
  - apply (coercion_of_blank_string "" "deg"). reflexivity.
Defined.

(** X3. Coercing twice is coercing once, for a unit with a character that
    no numeric text has ([px], [deg], [ms], [s], [Hz], [dpi], ...): what
    [coerceToUnit] returns is left unchanged by [coerceToUnit]. *)
Theorem coerceToUnit_idempotent (v : Value) (u : string) :
  foreign u ->
  coerceToUnit (coerceToUnit v u) u = coerceToUnit v u.
Proof.
  intros Hu. destruct (isNaN (Value_toNumber v)) eqn:E.
  - rewrite (coerceToUnit_other _ _ E). by apply coerceToUnit_other.
  - rewrite (coerceToUnit_number _ _ E).
    apply coerceToUnit_foreign. by apply foreign_app_r.
Qed.

Lemma coerceToUnit_idempotent_witness :
  coerceToUnit (coerceToUnit (VStr "300") "ms") "ms" = coerceToUnit (VStr "300") "ms"
  /\ coerceToTime (coerceToTime (VNum (of_Z 300)) None) None = VStr "300ms".
Proof.
  split.
  - apply coerceToUnit_idempotent. reflexivity.
  - unfold coerceToTime. cbn [default].
    rewrite (coerceToUnit_idempotent (VNum (of_Z 300)) DEFAULT_TIME_UNIT eq_refl).
    vm_compute. reflexivity.
Defined.

Lemma toString_calc_foreign (c : Calc.t) : foreign (Calc.toString c).
Proof.
  unfold Calc.toString, foreign. rewrite !all_chars_app.
  cbn [all_chars]. replace (numeric_char "(") with false by reflexivity.
  cbn [andb]. by rewrite andb_false_r.
Qed.

(** X4. An expression node given to a transform method is never read as
    a number: it is rendered as its full [toString()], without a unit. *)
Theorem coerceValue_of_expression (c : Calc.t) (u : string) :
  coerceValue (OCalc c) u = Calc.toString c.
Proof.
  rewrite coerceValue_other; [reflexivity|].
  cbn [Operand_toNumber]. by rewrite (ofString_foreign _ (toString_calc_foreign c)).
Qed.

(** X5. In the transform builder, coercing a coerced text again changes
    nothing, except for the number 0: its text ["0"] is a string, which
    gets the unit the second time.  (For a unit with a character that no
    numeric text has.) *)
Theorem coerceValue_twice (v : Operand) (u : string) :
  foreign u ->
  (Operand_is_zero v = false ->
   coerceValue (OStr (coerceValue v u)) u = coerceValue v u)
  /\ (Operand_is_zero v = true ->
      coerceValue (OStr (coerceValue v u)) u = "0" +:+ u).
Proof.
  intros Hu. split; intros Hz.
  - destruct (isNaN (Operand_toNumber v)) eqn:E.
    + rewrite (coerceValue_other _ _ E).
      rewrite coerceValue_other; [reflexivity|]. destruct v as [s|x|c].
      * exact E.
      * cbn in E. destruct x; try discriminate E. reflexivity.
      * cbn [Operand_toString Operand_toNumber].
        by rewrite (ofString_foreign _ (toString_calc_foreign c)).
    + rewrite (coerceValue_number _ _ Hz E).
      apply coerceValue_foreign. by apply foreign_app_r.
  - rewrite (coerceValue_zero _ _ Hz). reflexivity.
Qed.

Lemma coerceValue_twice_witness :
  coerceValue (OStr (coerceValue (ONum (of_Z 10)) "px")) "px" = "10px"
  /\ coerceValue (OStr (coerceValue (ONum (of_Z 0)) "px")) "px" = "0px".
Proof.
  destruct (coerceValue_twice (ONum (of_Z 10)) "px" eq_refl) as [H1 _].
  destruct (coerceValue_twice (ONum (of_Z 0)) "px" eq_refl) as [_ H2].
  split.
  - rewrite (H1 eq_refl). vm_compute. reflexivity.
  - apply H2. reflexivity.
Defined.

(** X6. The text [px(v)] returns, and so the text [spacing(v)] returns,
    is left unchanged by [coerceToLength], whatever the numbers are. *)
Theorem px_is_stable (value : option number) (unit : option string)
    (unitPx : number) :
  coerceToLength (VStr (px value)) unit = VStr (px value)
  /\ coerceToLength (VStr (Spacing.spacing value unitPx)) unit
     = VStr (Spacing.spacing value unitPx).
Proof.
  split; apply coerceToUnit_foreign; apply foreign_app_r; reflexivity.
Qed.

(** X7. [spacing] of a zero, or with a zero unit, is ["0px"] (the unit is
    kept) as long as the other factor is finite. *)
Theorem spacing_zero (value unitPx : number) :
  (strict_eq value (of_Z 0) = true /\ finite unitPx)
  \/ (finite value /\ strict_eq unitPx (of_Z 0) = true) ->
  Spacing.spacing (Some value) unitPx = "0px".
Proof.
  unfold Spacing.spacing, px. cbn [default].
  intros [[Hv Hu] | [Hv Hu]].
  - destruct value as [sv|sv| |sv mv ev]; try (destruct sv; discriminate Hv);
      try discriminate Hv.
    destruct unitPx as [su| | |su mu eu]; try destruct Hu; reflexivity.
  - destruct unitPx as [su|su| |su mu eu]; try (destruct su; discriminate Hu);
      try discriminate Hu.
    destruct value as [sv| | |sv mv ev]; try destruct Hv; reflexivity.
Qed.

Lemma spacing_zero_witness :
  Spacing.spacing (Some (of_Z 0)) Spacing.unitPx_initial = "0px"
  /\ Spacing.spacing (Some (of_Z 3)) (S754_zero true) = "0px".
Proof.
  split; apply spacing_zero.
  - left. split; [reflexivity|exact I].
  - right. split; [exact I|reflexivity].
Defined.

End Coercions.

(* ===================================================================== *)
(** ** Grouping and parentheses in expressions *)
(* ===================================================================== *)

Section CalcGrouping.
Import Calc calc_ts.

Lemma join_cons_app sep a (l : list string) x m :
  join sep (a :: l ++ x :: m) = a +:+ sep +:+ join sep (l ++ x :: m).
Proof. destruct l; reflexivity. Qed.

Lemma join_prefix sep (p x : string) m :
  join sep ((p +:+ x) :: m) = p +:+ join sep (x :: m).
Proof.
  destruct m as [|c m]; [reflexivity|].
  rewrite !join_cons. by rewrite append_assoc.
Qed.

(** A joined text used as an element at any position. *)
Lemma join_flatten_mid sep (l1 : list string) b l m :
  join sep (l1 ++ join sep (b :: l) :: m) = join sep (l1 ++ b :: l ++ m).
Proof.
  induction l1 as [|a l1 IH]; [apply join_flatten|].
  change ((a :: l1) ++ join sep (b :: l) :: m)%list
    with (a :: l1 ++ join sep (b :: l) :: m)%list.
  change ((a :: l1) ++ b :: l ++ m)%list with (a :: l1 ++ b :: l ++ m)%list.
  by rewrite !join_cons_app, IH.
Qed.

Lemma coerce_literal a b (x : Operand) :
  literal x -> coerce a b x = Operand_toString x.
Proof. by destruct x. Qed.

(** An operand built with an operator of the same precedence as the node
    under construction is stored as its bare text. *)
Lemma coerce_same_precedence o o' this xs :
  multiplicative o = multiplicative o' ->
  coerce (multiplicative o) false (OCalc (arithmetic o' this xs))
  = build (arithmetic o' this xs).
Proof. by destruct o, o'. Qed.

(** X8. An operand that was built with the same arithmetic method is not
    delimited: passing [y.m(...zs)] as an operand of [m], at any position,
    renders exactly as passing [y] and [zs] themselves.  For [subtract]
    and [divide] the grouping of the operand is therefore not kept. *)
Theorem nested_same_operator_is_flat (o : Operator) (this y : Calc.t)
    (xs zs ys : list Operand) :
  Calc.toString (arithmetic o this (xs ++ OCalc (arithmetic o y zs) :: ys))
  = Calc.toString (arithmetic o this (xs ++ OCalc y :: zs ++ ys)).
Proof.
  rewrite !toString_arithmetic, !build_arithmetic. do 2 f_equal.
  rewrite !fmap_cons, !fmap_app, !fmap_cons, fmap_app.
  rewrite coerce_same_operator, build_arithmetic, fmap_cons.
  apply (join_flatten_mid _ (_ :: _)).
Qed.

(** X9. Between operators of the same precedence the grouping of an
    operand is not kept either: [a.m(calc(x).m'(...ys))] renders exactly
    as [a.m(x).m'(...ys)] when [m] and [m'] are both additive or both
    multiplicative and [x] is a string or a number; so
    [calc(1).subtract(calc(2).add(3))] renders ["calc(1 - 2 + 3)"]. *)
Theorem same_precedence_grouping_is_lost (o o' : Operator) (this : Calc.t)
    (x : Operand) (ys : list Operand) :
  multiplicative o = multiplicative o' ->
  literal x ->
  Calc.toString (arithmetic o this [OCalc (arithmetic o' (calc x) ys)])
  = Calc.toString (arithmetic o' (arithmetic o this [x]) ys).
Proof.
  intros Hp Hx.
  rewrite !toString_arithmetic, !build_arithmetic. do 2 f_equal.
  rewrite !fmap_cons, fmap_nil.
  rewrite (coerce_same_precedence o o' _ _ Hp).
  rewrite (coerce_same_precedence o' o _ _ (eq_sym Hp)).
  rewrite !build_arithmetic, !fmap_cons, fmap_nil.
  rewrite (coerce_literal _ _ x Hx).
  assert (coerce (multiplicative o') false (OCalc (calc x)) = Operand_toString x)
    as ->.
  { destruct x; [by destruct o'|by destruct o'|destruct Hx]. }
  rewrite !(join_cons (separator o)), !join_singleton.
  symmetry. rewrite <- append_assoc, join_prefix.
  by rewrite append_assoc.
Qed.

Lemma same_precedence_grouping_is_lost_witness :
  Calc.toString
    (subtract (calc (ONum (of_Z 1)))
       [OCalc (add (calc (ONum (of_Z 2))) [ONum (of_Z 3)])])
  = Calc.toString
      (add (subtract (calc (ONum (of_Z 1))) [ONum (of_Z 2)]) [ONum (of_Z 3)])
  /\ Calc.toString
       (add (subtract (calc (ONum (of_Z 1))) [ONum (of_Z 2)]) [ONum (of_Z 3)])
     = "calc(1 - 2 + 3)".
Proof.
  split; [|vm_compute; reflexivity].
  apply (same_precedence_grouping_is_lost Minus Plus (calc (ONum (of_Z 1)))
           (ONum (of_Z 2)) [ONum (of_Z 3)]).
  - reflexivity.
  - exact I.
Defined.

(** X10. [calc(c)] around a node wrapped by [calc] renders as the node
    itself, with no second wrapper; around a named-function node it
    renders the node's full text inside [calc(...)]. *)
Theorem calc_of_node (c : Calc.t) :
  (fn c = F_calc -> Calc.toString (calc (OCalc c)) = Calc.toString c)
  /\ (fn c <> F_calc ->
      Calc.toString (calc (OCalc c)) = "calc(" +:+ Calc.toString c +:+ ")").
Proof.
  assert (Calc.toString (calc (OCalc c))
          = "calc(" +:+ (if isFn c then Calc.toString c else build c) +:+ ")")
    as -> by reflexivity.
  unfold isFn. split; intros H.
  - rewrite H. unfold Calc.toString. by rewrite H.
  - destruct (fn c); [done|..]; reflexivity.
Qed.

Lemma calc_of_node_witness :
  Calc.toString (calc (OCalc (add (calc (ONum (of_Z 1))) [ONum (of_Z 2)])))
  = "calc(1 + 2)"
  /\ Calc.toString (calc (OCalc (calc_ts.min [ONum (of_Z 1); ONum (of_Z 2)])))
     = "calc(min(1, 2))".
Proof.
  destruct (calc_of_node (add (calc (ONum (of_Z 1))) [ONum (of_Z 2)])) as [H1 _].
  destruct (calc_of_node (calc_ts.min [ONum (of_Z 1); ONum (of_Z 2)])) as [_ H2].
  split.
  - rewrite (H1 eq_refl). vm_compute. reflexivity.
  - rewrite H2; [vm_compute; reflexivity|discriminate].
Defined.

End CalcGrouping.

(* ===================================================================== *)
(** ** Parentheses stay balanced *)
(* ===================================================================== *)

Section Balance.
Import Calc calc_ts.

Lemma all_chars_substring p (n m : nat) (s : string) :
  all_chars p s = true -> all_chars p (String.substring n m s) = true.
Proof.
  revert n m. induction s as [|c s IH]; intros n m H.
  - by destruct n, m.
  - cbn [all_chars] in H. apply andb_true_iff in H as [Hc Hs].
    destruct n as [|n]; [destruct m as [|m]|]; cbn [String.substring].
    + reflexivity.
    + cbn [all_chars]. by rewrite Hc, (IH 0%nat m Hs).
    + by apply IH.
Qed.

Lemma all_chars_zeros p n : p "0"%char = true -> all_chars p (JsNumber.zeros n) = true.
Proof. intros H. induction n as [|n IH]; [reflexivity|]. cbn. by rewrite H, IH. Qed.

Lemma all_chars_digits p z :
  all_chars p number_text_chars = true ->
  all_chars p (JsNumber.digits z) = true.
Proof.
  intros H. cbn in H. repeat (apply andb_true_iff in H as [? H]).
  unfold JsNumber.digits.
  assert (G : forall d, all_chars p (NilEmpty.string_of_uint d) = true).
  { induction d; cbn [NilEmpty.string_of_uint all_chars]; rewrite ?IHd;
      try reflexivity; by apply andb_true_iff. }
  destruct (N.to_uint (Z.to_N z)) eqn:E; cbn [NilZero.string_of_uint];
    try apply G.
  cbn. by apply andb_true_iff.
Qed.

Lemma all_chars_format_decimal p ds n :
  all_chars p number_text_chars = true ->
  all_chars p ds = true ->
  all_chars p (JsNumber.format_decimal ds n) = true.
Proof.
  intros H Hds.
  pose proof (fun z => all_chars_digits p z H) as Hd.
  cbn in H. repeat (apply andb_true_iff in H as [? H]).
  unfold JsNumber.format_decimal, JsNumber.substring_from.
  repeat match goal with
         | |- context [if ?b then _ else _] => destruct b
         end;
    rewrite ?all_chars_app, ?Hds, ?Hd, ?all_chars_zeros, ?all_chars_substring
      by assumption;
    cbn [all_chars andb];
    repeat match goal with
           | Hx : p _ = true |- _ => rewrite ?Hx; clear Hx
           end;
    reflexivity.
Qed.

(** The text of a number is made of digits, a dot, a sign, an exponent
    mark, or is [NaN] or an infinity. *)
Lemma all_chars_number p (x : number) :
  all_chars p number_text_chars = true ->
  all_chars p (JsNumber.toString x) = true.
Proof.
  intros H.
  pose proof (fun ds n => all_chars_format_decimal p ds n H) as Hf.
  pose proof (fun z => all_chars_digits p z H) as Hd.
  cbn in H. repeat (apply andb_true_iff in H as [? H]).
  destruct x as [s|[]| |s m e]; cbn [JsNumber.toString all_chars].
  5: destruct (JsNumber.shortest_decimal m e) as [sd pd];
       rewrite all_chars_app, Hf by apply Hd;
       destruct s; cbn [all_chars andb].
  all: repeat match goal with
              | Hx : _ _ = true |- _ => rewrite ?Hx; clear Hx
              end;
    reflexivity.
Qed.

Lemma scan_app (a b : string) d :
  scan (a +:+ b) d = match scan a d with Some d' => scan b d' | None => None end.
Proof.
  revert d. induction a as [|c a IH]; intros d; [reflexivity|].
  rewrite append_String. cbn [scan].
  destruct (Ascii.eqb c "("); [apply IH|].
  destruct (Ascii.eqb c ")"); [|apply IH].
  destruct d; [reflexivity|apply IH].
Qed.

Lemma scan_plain s d : all_chars no_parenthesis s = true -> scan s d = Some d.
Proof.
  induction s as [|c s IH]; [reflexivity|].
  cbn [all_chars scan]. unfold no_parenthesis at 1.
  intros [Hc Hs]%andb_true_iff.
  apply negb_true_iff, orb_false_iff in Hc as [-> ->]. by apply IH.
Qed.

Lemma scan_lift s d d' k :
  scan s d = Some d' -> scan s (d + k) = Some (d' + k)%nat.
Proof.
  revert d. induction s as [|c s IH]; intros d; cbn [scan].
  - by intros [= ->].
  - destruct (Ascii.eqb c "("); [apply (IH (S d))|].
    destruct (Ascii.eqb c ")"); [|apply IH].
    destruct d as [|d]; [discriminate|]. apply IH.
Qed.

Lemma balanced_app a b : balanced a -> balanced b -> balanced (a +:+ b).
Proof. unfold balanced. intros Ha Hb. by rewrite scan_app, Ha. Qed.

Lemma balanced_plain s : all_chars no_parenthesis s = true -> balanced s.
Proof. apply scan_plain. Qed.

Lemma balanced_parenthesized s : balanced s -> balanced ("(" +:+ s +:+ ")").
Proof.
  unfold balanced. intros H.
  change ("(" +:+ s +:+ ")") with (String "(" (s +:+ ")")).
  cbn [scan Ascii.eqb Bool.eqb]. rewrite scan_app.
  pose proof (scan_lift s 0 0 1 H) as L. cbn [Nat.add] in L.
  by rewrite L.
Qed.

Lemma balanced_join sep l :
  balanced sep -> Forall balanced l -> balanced (join sep l).
Proof.
  intros Hsep. induction 1 as [|x l Hx Hl IH]; [reflexivity|].
  destruct l as [|y l]; [exact Hx|].
  rewrite join_cons. by repeat apply balanced_app.
Qed.

Lemma balanced_separator o : balanced (separator o).
Proof. by destruct o. Qed.

Lemma balanced_build (c : Calc.t) :
  Forall balanced (expressions c) -> balanced (build c).
Proof.
  intros H. unfold build. destruct (operator c) as [o|].
  - apply balanced_join; [apply balanced_separator|exact H].
  - by apply balanced_join.
Qed.

Lemma balanced_toString (c : Calc.t) :
  Forall balanced (expressions c) -> balanced (Calc.toString c).
Proof.
  intros H. unfold Calc.toString.
  apply balanced_app; [by destruct (fn c)|].
  by apply balanced_parenthesized, balanced_build.
Qed.

Lemma balanced_number (x : number) : balanced (JsNumber.toString x).
Proof. apply balanced_plain, all_chars_number. reflexivity. Qed.

Lemma balanced_coerce a b (x : Operand) :
  operand_balanced x -> balanced (coerce a b x).
Proof.
  destruct x as [s|x|c]; cbn [operand_balanced coerce].
  - done.
  - intros _. apply balanced_number.
  - intros H. destruct (a && isTerm c).
    + by apply balanced_parenthesized, balanced_build.
    + destruct (b || isFn c);
        [by apply balanced_toString | by apply balanced_build].
Qed.

(** X11. Parentheses stay balanced: when every string operand is balanced
    and every node operand holds balanced texts, the node the constructor
    builds holds balanced texts too, and its [build()] and [toString()]
    are balanced.  So nodes built from balanced strings and numbers by
    any sequence of calls render balanced. *)
Theorem parentheses_stay_balanced (exprs : list Operand)
    (o : option Operator) (f : Fn) :
  Forall operand_balanced exprs ->
  Forall balanced (expressions (new exprs o f))
  /\ balanced (build (new exprs o f))
  /\ balanced (Calc.toString (new exprs o f)).
Proof.
  intros H.
  assert (Forall balanced (expressions (new exprs o f))) as He.
  { rewrite expressions_new. apply Forall_fmap.
    eapply Forall_impl; [exact H|]. intros x. apply balanced_coerce. }
  split; [exact He|]. split.
  - by apply balanced_build.
  - by apply balanced_toString.
Qed.

Lemma parentheses_stay_balanced_witness :
  balanced
    (Calc.toString
       (new [OStr "var(--gap)"; ONum (of_Z 2);
             OCalc (add (calc (ONum (of_Z 1))) [OStr "min(1px, 2px)"])]
            (Some Times) F_calc))
  /\ Calc.toString
       (new [OStr "var(--gap)"; ONum (of_Z 2);
             OCalc (add (calc (ONum (of_Z 1))) [OStr "min(1px, 2px)"])]
            (Some Times) F_calc)
     = "calc(var(--gap) * 2 * (1 + min(1px, 2px)))".
Proof.
  split; [|vm_compute; reflexivity].
  apply parentheses_stay_balanced.
  repeat constructor.
Defined.

End Balance.

(* ===================================================================== *)
(** ** Chains of transforms *)
(* ===================================================================== *)

Section TransformChains.
Import Calc Transform.

(** Every method appends one text, the one it renders on its own. *)
Lemma Transform_call_appends c this :
  transforms (Transform_call c this)
  = (transforms this
     ++ [Transform.toString (Transform_call c transform)])%list.
Proof. destruct c; reflexivity. Qed.

Lemma Transform_fold_appends calls this :
  transforms (fold_left (fun this c => Transform_call c this) calls this)
  = (transforms this
     ++ ((fun c => Transform.toString (Transform_call c transform)) <$> calls))%list.
Proof.
  revert this. induction calls as [|c calls IH]; intros this.
  - cbn. by rewrite app_nil_r.
  - cbn [fold_left]. rewrite IH, Transform_call_appends.
    by rewrite <- app_assoc.
Qed.

Lemma transform_chain_rendering_list calls :
  Transform.toString (Transform_chain calls)
  = join " " ((fun c => Transform.toString (Transform_call c transform)) <$> calls).
Proof.
  unfold Transform.toString at 1, Transform_chain.
  by rewrite Transform_fold_appends.
Qed.

(** X12. A chain of transform calls renders as the renderings of its
    calls taken alone, in call order, joined by single spaces; the empty
    chain renders the empty string.  No call drops or reorders what the
    calls before it emitted. *)
Theorem transform_chain_rendering (calls : list TransformCall) :
  Transform.toString (Transform_chain calls)
  = join " " ((fun c => Transform.toString (Transform_call c transform)) <$> calls)
  /\ (forall c,
      transforms (Transform_chain (calls ++ [c]))
      = (transforms (Transform_chain calls)
         ++ [Transform.toString (Transform_call c transform)])%list).
Proof.
  split.
  - unfold Transform.toString at 1, Transform_chain.
    by rewrite Transform_fold_appends.
  - intros c. unfold Transform_chain. rewrite fold_left_app.
    apply Transform_call_appends.
Qed.

Lemma balanced_Operand_toString (x : Operand) :
  operand_balanced x -> balanced (Operand_toString x).
Proof.
  destruct x as [s|x|c]; cbn [operand_balanced Operand_toString].
  - done.
  - intros _. apply balanced_number.
  - apply balanced_toString.
Qed.

Lemma balanced_coerceValue (x : Operand) (u : string) :
  balanced u -> operand_balanced x -> balanced (coerceValue x u).
Proof.
  intros Hu Hx. unfold coerceValue. destruct (Operand_is_zero x); [reflexivity|].
  destruct (isNaN (Operand_toNumber x)).
  - by apply balanced_Operand_toString.
  - apply balanced_app; [apply balanced_number|exact Hu].
Qed.

Lemma scan_balanced s d : balanced s -> scan s d = Some d.
Proof. intros H. apply (scan_lift s 0 0 d H). Qed.

Lemma balanced_Value_toString v : value_balanced v -> balanced (Value_toString v).
Proof.
  destruct v as [|s|x]; cbn [value_balanced Value_toString]; [done|done|].
  intros _. apply balanced_number.
Qed.

(** Reads a text piece by piece, keeping the depth. *)
Ltac scan_piece :=
  first
    [ rewrite (scan_balanced (JsNumber.toString _)) by apply balanced_number
    | rewrite (scan_balanced (coerceValue _ _))
        by (apply balanced_coerceValue;
            [reflexivity|first [assumption|exact I]])
    | rewrite (scan_balanced (Operand_toString _))
        by (apply balanced_Operand_toString; assumption)
    | progress cbn [scan Ascii.eqb Bool.eqb] ].

Ltac scan_pieces :=
  unfold balanced;
  repeat (try rewrite scan_app; scan_piece; cbn [scan Ascii.eqb Bool.eqb]);
  try reflexivity.

Lemma balanced_Transform_call c :
  Forall operand_balanced (Transform_operands c) ->
  balanced (Transform.toString (Transform_call c transform)).
Proof.
  intros H.
  destruct c as [| | | | | | | |x [y|]| | | | |x [y|]| | |x [y|]| | | |];
    cbn [Transform_operands] in H;
    repeat match goal with
           | H : Forall _ (_ :: _) |- _ =>
               let H1 := fresh in let H2 := fresh in
               apply Forall_cons in H; destruct H as [H1 H2]
           end;
    unfold Transform.toString; cbn [Transform_call transforms transform new
      default app matrix matrix3d perspective rotate rotate3d rotateX rotateY
      rotateZ scale scale3d scaleX scaleY scaleZ skew skewX skewY translate
      translate3d translateX translateY translateZ];
    rewrite join_singleton; unfold num; scan_pieces.
Qed.

(** X21. The function texts are well formed.  [cubicBezier] and [steps]
    always give a text with balanced parentheses; [linear] does when its
    string arguments are balanced; and a chain of transform calls does
    when the operands it was given are: no method of the transform
    builder opens a parenthesis it does not close. *)
Theorem function_texts_are_balanced :
  (forall p1 p2 p3 p4, balanced (cubicBezier p1 p2 p3 p4))
  /\ (forall n position, balanced (steps n position))
  /\ (forall args, Forall value_balanced args -> balanced (linear args))
  /\ (forall calls,
        Forall (fun c => Forall operand_balanced (Transform_operands c)) calls ->
        balanced (Transform.toString (Transform_chain calls))).
Proof.
  split; [|split; [|split]].
  - intros. unfold cubicBezier. scan_pieces.
  - intros n position. unfold steps. scan_pieces.
    by destruct position.
  - intros args H. unfold linear, balanced.
    rewrite scan_app. cbn [scan Ascii.eqb Bool.eqb].
    rewrite scan_app, scan_balanced; [reflexivity|].
    apply balanced_join; [reflexivity|].
    apply Forall_fmap. eapply Forall_impl; [exact H|].
    apply balanced_Value_toString.
  - intros calls H.
    rewrite transform_chain_rendering_list.
    apply balanced_join; [reflexivity|].
    apply Forall_fmap. eapply Forall_impl; [exact H|].
    apply balanced_Transform_call.
Qed.

Lemma function_texts_are_balanced_witness :
  let calls := [tr_translateX (OCalc (calc_ts.calc (OStr "100% - 4px")));
                tr_rotate (ONum (of_Z 45))] in
  balanced (Transform.toString (Transform_chain calls))
  /\ Transform.toString (Transform_chain calls)
     = "translateX(calc(100% - 4px)) rotate(45deg)"
  /\ balanced (linear [VNum (of_Z 0); VStr "50%"; VNum (of_Z 1)])
  /\ linear [VNum (of_Z 0); VStr "50%"; VNum (of_Z 1)] = "linear(0, 50%, 1)".
Proof.
  intros calls.
  destruct function_texts_are_balanced as (_ & _ & Hl & Ht).
  split; [|split; [vm_compute; reflexivity|split; [|vm_compute; reflexivity]]].
  - apply Ht. repeat constructor.
  - apply Hl. repeat constructor.
Defined.

End TransformChains.

(* ===================================================================== *)
(** ** How the calls on builders compose *)
(* ===================================================================== *)

Section BuilderLaws.
Import Heap.

Lemma Transition_set_eq s this h :
  Transition_set s this h
  = (Transition.mk (Transition.properties this) (next h)
       (Transition.otherTransitions this),
     (alloc (<[Transition_field s := Transition_value s]>
               (read h (Transition.configuration this))) h).2).
Proof. destruct s; reflexivity. Qed.

Lemma Animation_set_eq s this h :
  Animation_set s this h
  = (Animation.mk (Animation.keyframes this) (next h)
       (Animation.otherAnimations this),
     (alloc (<[Animation_field s := Animation_value s]>
               (read h (Animation.configuration this))) h).2).
Proof. destruct s; reflexivity. Qed.

Lemma Transition_others_alloc o h properties c others :
  allocated h (Transition_locations (Transition.mk properties c others)) ->
  Transition.toString (alloc o h).2 <$> others = Transition.toString h <$> others.
Proof.
  intros [_ Ho]%Transition_locations_Forall.
  apply Forall_fmap_ext_1. eapply Forall_impl; [exact Ho|].
  intros b. apply Transition_toString_alloc.
Qed.

Lemma Animation_others_alloc o h keyframes c others :
  allocated h (Animation_locations (Animation.mk keyframes c others)) ->
  Animation.toString (alloc o h).2 <$> others = Animation.toString h <$> others.
Proof.
  intros [_ Ho]%Animation_locations_Forall.
  apply Forall_fmap_ext_1. eapply Forall_impl; [exact Ho|].
  intros b. apply Animation_toString_alloc.
Qed.

(** The rendering of what a setter returns. *)
Lemma Transition_render_set s this h :
  allocated h (Transition_locations this) ->
  Transition_render (Transition_set s this h)
  = join ", "
      (Transition_pairs
         (<[Transition_field s := Transition_value s]>
            (read h (Transition.configuration this)))
         (Transition.properties this)
       :: (Transition.toString h <$> Transition.otherTransitions this)).
Proof.
  intros Hb. rewrite Transition_set_eq. destruct this as [p c others].
  unfold Transition_render. cbn [fst snd Transition.toString
    Transition.properties Transition.configuration Transition.otherTransitions].
  rewrite (read_alloc_new _ h).
  by rewrite (Transition_others_alloc _ _ _ _ _ Hb).
Qed.

Lemma Animation_render_set s this h :
  allocated h (Animation_locations this) ->
  Animation_render (Animation_set s this h)
  = join ", "
      (Animation_pairs
         (<[Animation_field s := Animation_value s]>
            (read h (Animation.configuration this)))
         (Animation.keyframes this)
       :: (Animation.toString h <$> Animation.otherAnimations this)).
Proof.
  intros Hb. rewrite Animation_set_eq. destruct this as [p c others].
  unfold Animation_render. cbn [fst snd Animation.toString
    Animation.keyframes Animation.configuration Animation.otherAnimations].
  rewrite (read_alloc_new _ h).
  by rewrite (Animation_others_alloc _ _ _ _ _ Hb).
Qed.

(** The rendering of what two setters in a row return. *)
Lemma Transition_render_set_set s1 s2 this h :
  heap_ok h ->
  allocated h (Transition_locations this) ->
  Transition_render ((b <- Transition_set s1 this ;; Transition_set s2 b) h)
  = join ", "
      (Transition_pairs
         (<[Transition_field s2 := Transition_value s2]>
            (<[Transition_field s1 := Transition_value s1]>
               (read h (Transition.configuration this))))
         (Transition.properties this)
       :: (Transition.toString h <$> Transition.otherTransitions this)).
Proof.
  intros Hh Hb. unfold bind. rewrite (Transition_set_eq s1).
  rewrite Transition_render_set
    by (by apply Transition_setter_allocated).
  cbn [Transition.properties Transition.configuration Transition.otherTransitions].
  rewrite (read_alloc_new _ h). destruct this as [p c others].
  by rewrite (Transition_others_alloc _ _ _ _ _ Hb).
Qed.

Lemma Animation_render_set_set s1 s2 this h :
  heap_ok h ->
  allocated h (Animation_locations this) ->
  Animation_render ((b <- Animation_set s1 this ;; Animation_set s2 b) h)
  = join ", "
      (Animation_pairs
         (<[Animation_field s2 := Animation_value s2]>
            (<[Animation_field s1 := Animation_value s1]>
               (read h (Animation.configuration this))))
         (Animation.keyframes this)
       :: (Animation.toString h <$> Animation.otherAnimations this)).
Proof.
  intros Hh Hb. unfold bind. rewrite (Animation_set_eq s1).
  rewrite Animation_render_set
    by (by apply Animation_setter_allocated).
  cbn [Animation.keyframes Animation.configuration Animation.otherAnimations].
  rewrite (read_alloc_new _ h). destruct this as [p c others].
  by rewrite (Animation_others_alloc _ _ _ _ _ Hb).
Qed.

(** X13. The last setter of a field wins: setting a field twice renders
    as setting it once to the second value.  (Transitions and animations,
    for a receiver whose configuration objects are allocated.) *)
Theorem setter_last_write_wins :
  (forall (s1 s2 : TransitionSetter) (this : Transition.t) (h : heap),
      heap_ok h ->
      allocated h (Transition_locations this) ->
      Transition_field s1 = Transition_field s2 ->
      Transition_render ((b <- Transition_set s1 this ;; Transition_set s2 b) h)
      = Transition_render (Transition_set s2 this h))
  /\ (forall (s1 s2 : AnimationSetter) (this : Animation.t) (h : heap),
      heap_ok h ->
      allocated h (Animation_locations this) ->
      Animation_field s1 = Animation_field s2 ->
      Animation_render ((b <- Animation_set s1 this ;; Animation_set s2 b) h)
      = Animation_render (Animation_set s2 this h)).
Proof.
  split; intros s1 s2 this h Hh Hb E.
  - rewrite Transition_render_set_set, Transition_render_set by done.
    by rewrite E, insert_insert_eq.
  - rewrite Animation_render_set_set, Animation_render_set by done.
    by rewrite E, insert_insert_eq.
Qed.

(** X14. Setters of different fields commute: either order renders the
    same text. *)
Theorem setters_commute :
  (forall (s1 s2 : TransitionSetter) (this : Transition.t) (h : heap),
      heap_ok h ->
      allocated h (Transition_locations this) ->
      Transition_field s1 <> Transition_field s2 ->
      Transition_render ((b <- Transition_set s1 this ;; Transition_set s2 b) h)
      = Transition_render ((b <- Transition_set s2 this ;; Transition_set s1 b) h))
  /\ (forall (s1 s2 : AnimationSetter) (this : Animation.t) (h : heap),
      heap_ok h ->
      allocated h (Animation_locations this) ->
      Animation_field s1 <> Animation_field s2 ->
      Animation_render ((b <- Animation_set s1 this ;; Animation_set s2 b) h)
      = Animation_render ((b <- Animation_set s2 this ;; Animation_set s1 b) h)).
Proof.
  split; intros s1 s2 this h Hh Hb E.
  - rewrite !Transition_render_set_set by done.
    by rewrite (insert_insert_ne _ _ _ _ _ E).
  - rewrite !Animation_render_set_set by done.
    by rewrite (insert_insert_ne _ _ _ _ _ E).
Qed.

Lemma setter_last_write_wins_witness :
  let r := Transition.transition ["opacity"] initial_heap in
  Transition_render
    ((b <- Transition_set (ts_duration (VStr "1s")) r.1 ;;
      Transition_set (ts_duration (VNum (of_Z 150))) b) r.2)
  = Transition_render (Transition_set (ts_duration (VNum (of_Z 150))) r.1 r.2)
  /\ Transition_render (Transition_set (ts_duration (VNum (of_Z 150))) r.1 r.2)
     = "opacity 150ms cubic-bezier(0.4, 0, 0.2, 1)".
Proof.
  intros r. split; [|vm_compute; reflexivity].
  destruct setter_last_write_wins as [H _]. apply H.
  - apply heap_ok_alloc, heap_ok_initial.
  - apply Transition_transition_allocated, heap_ok_initial.
  - reflexivity.
Defined.

Lemma setters_commute_witness :
  let r := Animation.animation ["spin"] initial_heap in
  Animation_render
    ((b <- Animation_set (as_delay (VStr "1s")) r.1 ;;
      Animation_set (as_direction (VStr "reverse")) b) r.2)
  = Animation_render
      ((b <- Animation_set (as_direction (VStr "reverse")) r.1 ;;
        Animation_set (as_delay (VStr "1s")) b) r.2)
  /\ Animation_render
       ((b <- Animation_set (as_direction (VStr "reverse")) r.1 ;;
         Animation_set (as_delay (VStr "1s")) b) r.2)
     = "300ms cubic-bezier(0.4, 0, 0.2, 1) 1s reverse spin".
Proof.
  intros r. split; [|vm_compute; reflexivity].
  destruct setters_commute as [_ H]. apply H.
  - apply heap_ok_alloc, heap_ok_initial.
  - apply Animation_animation_allocated, heap_ok_initial.
  - discriminate.
Defined.

(** X15. [and] only collects: with no argument it renders as the
    receiver; two calls render as one call with both argument lists; and
    a chained builder that was itself built with [and] renders as its
    parts chained one by one. *)
Theorem and_is_associative :
  (forall (h : heap) (this : Transition.t) (xs ys : list Transition.t)
          (b : Transition.t),
      Transition.toString h (Transition.and this [] h).1 = Transition.toString h this
      /\ (Transition.and (Transition.and this xs h).1 ys h).1
         = (Transition.and this (xs ++ ys) h).1
      /\ Transition.toString h
           (Transition.and this (xs ++ (Transition.and b ys h).1 :: nil) h).1
         = Transition.toString h (Transition.and this (xs ++ b :: ys) h).1)
  /\ (forall (h : heap) (this : Animation.t) (xs ys : list Animation.t)
             (b : Animation.t),
      Animation.toString h (Animation.and this [] h).1 = Animation.toString h this
      /\ (Animation.and (Animation.and this xs h).1 ys h).1
         = (Animation.and this (xs ++ ys) h).1
      /\ Animation.toString h
           (Animation.and this (xs ++ (Animation.and b ys h).1 :: nil) h).1
         = Animation.toString h (Animation.and this (xs ++ b :: ys) h).1).
Proof.
  split; intros h this xs ys b.
  - split; [by rewrite Transition_toString_and|]. split.
    + rewrite !Transition_and_eq. cbn [fst Transition.properties
        Transition.configuration Transition.otherTransitions].
      by rewrite app_assoc.
    + rewrite !Transition_toString_and, !fmap_app, !fmap_cons, fmap_nil.
      rewrite Transition_toString_and, !app_comm_cons.
      by rewrite join_flatten_mid, app_nil_r.
  - split; [by rewrite Animation_toString_and|]. split.
    + rewrite !Animation_and_eq. cbn [fst Animation.keyframes
        Animation.configuration Animation.otherAnimations].
      by rewrite app_assoc.
    + rewrite !Animation_toString_and, !fmap_app, !fmap_cons, fmap_nil.
      rewrite Animation_toString_and, !app_comm_cons.
      by rewrite join_flatten_mid, app_nil_r.
Qed.

(** X16. A setter called after [and] gives the same builder as [and]
    called after the setter: it changes the pairs of the receiver only,
    and the builders chained to it render as before. *)
Theorem setter_after_and :
  (forall (s : TransitionSetter) (this : Transition.t)
          (ts : list Transition.t) (h : heap),
      (b <- Transition.and this ts ;; Transition_set s b) h
      = (b <- Transition_set s this ;; Transition.and b ts) h
      /\ (allocated h (Transition_locations this) ->
          Forall (fun b => allocated h (Transition_locations b)) ts ->
          Transition_render ((b <- Transition.and this ts ;; Transition_set s b) h)
          = join ", "
              (Transition_render (Transition_set s this h)
               :: (Transition.toString h <$> ts))))
  /\ (forall (s : AnimationSetter) (this : Animation.t)
             (ts : list Animation.t) (h : heap),
      (b <- Animation.and this ts ;; Animation_set s b) h
      = (b <- Animation_set s this ;; Animation.and b ts) h
      /\ (allocated h (Animation_locations this) ->
          Forall (fun b => allocated h (Animation_locations b)) ts ->
          Animation_render ((b <- Animation.and this ts ;; Animation_set s b) h)
          = join ", "
              (Animation_render (Animation_set s this h)
               :: (Animation.toString h <$> ts)))).
Proof.
  split; intros s this ts h.
  - assert ((b <- Transition.and this ts ;; Transition_set s b) h
            = (b <- Transition_set s this ;; Transition.and b ts) h) as E.
    { unfold bind. rewrite Transition_and_eq, !Transition_set_eq.
      by rewrite Transition_and_eq. }
    split; [exact E|]. intros Hb Hts. rewrite E.
    unfold bind. rewrite Transition_set_eq.
    unfold Transition_render at 1. rewrite Transition_and_eq. cbn [fst snd].
    pose proof (Transition_toString_and
                  (alloc (<[Transition_field s := Transition_value s]>
                            (read h (Transition.configuration this))) h).2
                  (Transition.mk (Transition.properties this) (next h)
                     (Transition.otherTransitions this)) ts) as A.
    rewrite Transition_and_eq in A. cbn [fst] in A. rewrite A.
    unfold Transition_render. cbn [fst snd].
    do 2 f_equal. apply Forall_fmap_ext_1.
    eapply Forall_impl; [exact Hts|]. intros b. apply Transition_toString_alloc.
  - assert ((b <- Animation.and this ts ;; Animation_set s b) h
            = (b <- Animation_set s this ;; Animation.and b ts) h) as E.
    { unfold bind. rewrite Animation_and_eq, !Animation_set_eq.
      by rewrite Animation_and_eq. }
    split; [exact E|]. intros Hb Hts. rewrite E.
    unfold bind. rewrite Animation_set_eq.
    unfold Animation_render at 1. rewrite Animation_and_eq. cbn [fst snd].
    pose proof (Animation_toString_and
                  (alloc (<[Animation_field s := Animation_value s]>
                            (read h (Animation.configuration this))) h).2
                  (Animation.mk (Animation.keyframes this) (next h)
                     (Animation.otherAnimations this)) ts) as A.
    rewrite Animation_and_eq in A. cbn [fst] in A. rewrite A.
    unfold Animation_render. cbn [fst snd].
    do 2 f_equal. apply Forall_fmap_ext_1.
    eapply Forall_impl; [exact Hts|]. intros b. apply Animation_toString_alloc.
Qed.

Lemma setter_after_and_witness :
  let r1 := Transition.transition ["opacity"] initial_heap in
  let r2 := Transition.transition ["transform"] r1.2 in
  Transition_render
    ((b <- Transition.and r1.1 [r2.1] ;;
      Transition_set (ts_duration (VStr "1s")) b) r2.2)
  = join ", "
      [Transition_render (Transition_set (ts_duration (VStr "1s")) r1.1 r2.2);
       Transition.toString r2.2 r2.1]
  /\ Transition_render
       ((b <- Transition.and r1.1 [r2.1] ;;
         Transition_set (ts_duration (VStr "1s")) b) r2.2)
     = "opacity 1s cubic-bezier(0.4, 0, 0.2, 1), transform 300ms cubic-bezier(0.4, 0, 0.2, 1)".
Proof.
  intros r1 r2. split; [|vm_compute; reflexivity].
  destruct setter_after_and as [H _].
  destruct (H (ts_duration (VStr "1s")) r1.1 [r2.1] r2.2) as [_ H'].
  apply H'.
  - apply allocated_alloc, Transition_transition_allocated, heap_ok_initial.
  - constructor; [|constructor].
    apply Transition_transition_allocated, heap_ok_alloc, heap_ok_initial.
Defined.

(** X17. A builder made with no names renders an empty text of its own:
    alone it renders the empty string, and with builders chained to it
    the rendering starts with a comma. *)
Theorem builder_without_names :
  (forall (h : heap) (b : Transition.t) (ts : list Transition.t),
      Transition_render (Transition.transition [] h) = ""
      /\ (Forall (fun t => allocated h (Transition_locations t)) (b :: ts) ->
          Transition_render
            ((a <- Transition.transition [] ;; Transition.and a (b :: ts)) h)
          = ", " +:+ join ", " (Transition.toString h <$> (b :: ts))))
  /\ (forall (h : heap) (b : Animation.t) (ts : list Animation.t),
      Animation_render (Animation.animation [] h) = ""
      /\ (Forall (fun t => allocated h (Animation_locations t)) (b :: ts) ->
          Animation_render
            ((a <- Animation.animation [] ;; Animation.and a (b :: ts)) h)
          = ", " +:+ join ", " (Animation.toString h <$> (b :: ts)))).
Proof.
  split; intros h b ts; (split; [reflexivity|]); intros Hts.
  - assert (Transition.toString (alloc (read h Transition.defaultConfig) h).2
              <$> (b :: ts)
            = Transition.toString h <$> (b :: ts)) as E.
    { apply Forall_fmap_ext_1. eapply Forall_impl; [exact Hts|].
      intros t. apply Transition_toString_alloc. }
    unfold bind, Transition_render.
    rewrite Transition_transition_eq, Transition_and_eq.
    cbn [fst snd Transition.properties Transition.configuration
         Transition.otherTransitions app Transition.toString].
    rewrite E. reflexivity.
  - assert (Animation.toString (alloc (read h Animation.config) h).2
              <$> (b :: ts)
            = Animation.toString h <$> (b :: ts)) as E.
    { apply Forall_fmap_ext_1. eapply Forall_impl; [exact Hts|].
      intros t. apply Animation_toString_alloc. }
    unfold bind, Animation_render.
    rewrite Animation_animation_eq, Animation_and_eq.
    cbn [fst snd Animation.keyframes Animation.configuration
         Animation.otherAnimations app Animation.toString].
    rewrite E. reflexivity.
Qed.

Lemma builder_without_names_witness :
  let r := Transition.transition ["opacity"] initial_heap in
  Transition_render
    ((a <- Transition.transition [] ;; Transition.and a [r.1]) r.2)
  = ", " +:+ join ", " (Transition.toString r.2 <$> [r.1])
  /\ ", " +:+ join ", " (Transition.toString r.2 <$> [r.1])
     = ", opacity 300ms cubic-bezier(0.4, 0, 0.2, 1)".
Proof.
  intros r. split; [|vm_compute; reflexivity].
  destruct builder_without_names as [H _].
  destruct (H r.2 r.1 []) as [_ H']. apply H'.
  constructor; [|constructor].
  apply Transition_transition_allocated, heap_ok_initial.
Defined.

Lemma assign_assign target (s1 s2 : obj) h :
  assign target s2 (assign target s1 h) = assign target (s2 ∪ s1) h.
Proof.
  unfold assign at 1 3. rewrite read_assign_same. unfold assign.
  cbn [objects next]. by rewrite insert_insert_eq, (assoc_L (∪)).
Qed.

(** X18. Overrides accumulate: two calls of an override function leave
    the heap that one call with the second record laid over the first
    leaves; a call with an empty record changes no object; and neither
    family's override touches the other family's default object. *)
Theorem overrides_compose (c1 c2 : obj) (h : heap) :
  (Transition.transitionConfigDefaults c2
     (Transition.transitionConfigDefaults c1 h).2).2
  = (Transition.transitionConfigDefaults (c2 ∪ c1) h).2
  /\ (Animation.animationConfigDefaults c2
        (Animation.animationConfigDefaults c1 h).2).2
     = (Animation.animationConfigDefaults (c2 ∪ c1) h).2
  /\ (forall l,
      read (Transition.transitionConfigDefaults ∅ h).2 l = read h l
      /\ read (Animation.animationConfigDefaults ∅ h).2 l = read h l)
  /\ read (Transition.transitionConfigDefaults c1 h).2 Animation.config
     = read h Animation.config
  /\ read (Animation.animationConfigDefaults c1 h).2 Transition.defaultConfig
     = read h Transition.defaultConfig.
Proof.
  cbn [snd Transition.transitionConfigDefaults Animation.animationConfigDefaults].
  split; [apply assign_assign|]. split; [apply assign_assign|].
  split; [|split; by apply read_assign_other].
  intros l. split.
  - destruct (decide (l = Transition.defaultConfig)) as [->|Hl].
    + by rewrite read_assign_same, (left_id_L ∅ (∪)).
    + by apply read_assign_other.
  - destruct (decide (l = Animation.config)) as [->|Hl].
    + by rewrite read_assign_same, (left_id_L ∅ (∪)).
    + by apply read_assign_other.
Qed.

Lemma Transition_call_heap c h :
  (Transition_call c h).2 = h \/ exists o, (Transition_call c h).2 = (alloc o h).2.
Proof. destruct c; [right|right|right|right|left]; eauto. Qed.

Lemma Animation_call_heap c h :
  (Animation_call c h).2 = h \/ exists o, (Animation_call c h).2 = (alloc o h).2.
Proof.
  destruct c; [right|right|right|right|right|right|right|right|left]; eauto.
Qed.

(** One call keeps every allocated object as it is. *)
Lemma step_keeps_objects w w' (l : loc) :
  step w w' ->
  (first_free <= l < next (heap_of w))%nat ->
  (first_free <= l < next (heap_of w'))%nat
  /\ read (heap_of w') l = read (heap_of w) l.
Proof.
  intros Hstep Hl.
  destruct Hstep as [c w Hu|c w Hu|newConfig w|newConfig w]; cbn [heap_of].
  - destruct (Transition_call_heap c (heap_of w)) as [->|[o ->]]; [done|].
    split; [cbn; lia|]. apply read_alloc_old. lia.
  - destruct (Animation_call_heap c (heap_of w)) as [->|[o ->]]; [done|].
    split; [cbn; lia|]. apply read_alloc_old. lia.
  - split; [exact Hl|]. apply read_assign_other.
    unfold Transition.defaultConfig, transition_defaultConfig.
    unfold first_free in Hl. lia.
  - split; [exact Hl|]. apply read_assign_other.
    unfold Animation.config, animation_config.
    unfold first_free in Hl. lia.
Qed.

Lemma steps_keep_objects w w' (l : loc) :
  rtc step w w' ->
  (first_free <= l < next (heap_of w))%nat ->
  (first_free <= l < next (heap_of w'))%nat
  /\ read (heap_of w') l = read (heap_of w) l.
Proof.
  intros Hsteps. induction Hsteps as [w|w w1 w2 H1 _ IH]; [done|].
  intros Hl. destruct (step_keeps_objects _ _ l H1 Hl) as [Hl1 E1].
  destruct (IH Hl1) as [Hl2 E2]. split; [exact Hl2|]. by rewrite E2.
Qed.

Lemma steps_keep_builders w w' :
  rtc step w w' ->
  (forall b, b ∈ transitions w -> b ∈ transitions w')
  /\ (forall b, b ∈ animations w -> b ∈ animations w').
Proof.
  induction 1 as [w|w w1 w2 H1 _ [IHt IHa]]; [done|].
  destruct H1 as [c w Hu|c w Hu|newConfig w|newConfig w];
    cbn [transitions animations] in *; split; intros b Hb;
    try (apply IHt); try (apply IHa); try exact Hb;
    by apply list_elem_of_further.
Qed.

(** X19. No call ever changes a builder a program already holds: from any
    reachable world, after any further calls (factories, setters, [and],
    overrides of either family), every transition and animation obtained
    before is still held and renders exactly as it did. *)
Theorem builders_are_immutable (w w' : world) :
  reachable w ->
  rtc step w w' ->
  (forall b, b ∈ transitions w ->
     b ∈ transitions w'
     /\ Transition.toString (heap_of w') b = Transition.toString (heap_of w) b)
  /\ (forall b, b ∈ animations w ->
        b ∈ animations w'
        /\ Animation.toString (heap_of w') b = Animation.toString (heap_of w) b).
Proof.
  intros Hw Hsteps.
  destruct (reachable_world_ok w Hw) as (_ & Ht & Ha).
  destruct (steps_keep_builders w w' Hsteps) as [Kt Ka].
  rewrite Forall_forall in Ht. rewrite Forall_forall in Ha.
  split; intros b Hb; (split; [auto|]).
  - apply Transition_toString_frame.
    eapply Forall_impl; [exact (Ht b Hb)|]. cbn beta. intros l Hl.
    by apply (steps_keep_objects w w' l Hsteps).
  - apply Animation_toString_frame.
    eapply Forall_impl; [exact (Ha b Hb)|]. cbn beta. intros l Hl.
    by apply (steps_keep_objects w w' l Hsteps).
Qed.

Lemma builders_are_immutable_witness :
  let w0 := World initial_heap [] [] in
  let r1 := Transition.transition ["opacity"] initial_heap in
  let w1 := World r1.2 [r1.1] [] in
  let r2 := Transition.duration r1.1 (VStr "1s") r1.2 in
  let w2 := World r2.2 [r2.1; r1.1] [] in
  let w3 := World (Transition.transitionConfigDefaults
                     (<["transitionDuration" := VStr "2s"]> ∅) r2.2).2
                  [r2.1; r1.1] [] in
  Transition.toString (heap_of w3) r1.1 = Transition.toString (heap_of w1) r1.1
  /\ Transition.toString (heap_of w1) r1.1
     = "opacity 300ms cubic-bezier(0.4, 0, 0.2, 1)".
Proof.
  intros w0 r1 w1 r2 w2 w3. split; [|vm_compute; reflexivity].
  assert (step w0 w1) as S1.
  { apply (step_Transition (t_transition ["opacity"]) w0). constructor. }
  assert (step w1 w2) as S2.
  { apply (step_Transition (t_duration r1.1 (VStr "1s")) w1).
    constructor; [apply list_elem_of_here|constructor]. }
  assert (step w2 w3) as S3.
  { apply (step_transitionConfigDefaults _ w2). }
  destruct (builders_are_immutable w1 w3) as [H _].
  - apply rtc_once, S1.
  - eapply rtc_l; [exact S2|]. apply rtc_once, S3.
  - apply H. apply list_elem_of_here.
Defined.

Lemma get_delete (o : gmap string Value) k : get (delete k o) k = VUndefined.
Proof. unfold get. by rewrite lookup_delete_eq. Qed.

Lemma get_delete_ne (o : gmap string Value) k k' :
  k <> k' -> get (delete k o) k' = get o k'.
Proof. intros. unfold get. by rewrite lookup_delete_ne. Qed.

Lemma Transition_cfg_falsy s o :
  Value_toBoolean (Transition_value s) = false ->
  Transition.cfg (<[Transition_field s := Transition_value s]> o)
  = Transition.cfg (delete (Transition_field s) o).
Proof.
  intros Hv. unfold Transition.cfg, render_fields.
  destruct s; cbn [Transition_field] in *;
    rewrite ?get_insert, ?get_delete;
    rewrite ?get_insert_ne, ?get_delete_ne by discriminate;
    cbn [List.filter Value_toBoolean]; rewrite Hv; reflexivity.
Qed.

Lemma Animation_cfg_falsy s o :
  Value_toBoolean (Animation_value s) = false ->
  Animation.cfg (<[Animation_field s := Animation_value s]> o)
  = Animation.cfg (delete (Animation_field s) o).
Proof.
  intros Hv. unfold Animation.cfg, render_fields.
  destruct s; cbn [Animation_field] in *;
    rewrite ?get_insert, ?get_delete;
    rewrite ?get_insert_ne, ?get_delete_ne by discriminate;
    cbn [List.filter Value_toBoolean]; rewrite Hv; reflexivity.
Qed.

(** X20. A setter whose stored value is falsy ([0], [NaN], the empty
    string, [undefined]) removes the field from the rendering, default
    included: the builder renders as if its configuration had no such
    field at all. *)
Theorem falsy_value_is_omitted :
  (forall s this h,
      allocated h (Transition_locations this) ->
      Value_toBoolean (Transition_value s) = false ->
      Transition_render (Transition_set s this h)
      = join ", "
          (Transition_pairs
             (delete (Transition_field s) (read h (Transition.configuration this)))
             (Transition.properties this)
           :: (Transition.toString h <$> Transition.otherTransitions this)))
  /\ (forall s this h,
         allocated h (Animation_locations this) ->
         Value_toBoolean (Animation_value s) = false ->
         Animation_render (Animation_set s this h)
         = join ", "
             (Animation_pairs
                (delete (Animation_field s) (read h (Animation.configuration this)))
                (Animation.keyframes this)
              :: (Animation.toString h <$> Animation.otherAnimations this))).
Proof.
  split; intros s this h Hb Hv.
  - rewrite (Transition_render_set _ _ _ Hb). unfold Transition_pairs.
    by rewrite (Transition_cfg_falsy _ _ Hv).
  - rewrite (Animation_render_set _ _ _ Hb). unfold Animation_pairs.
    by rewrite (Animation_cfg_falsy _ _ Hv).
Qed.

Lemma falsy_value_is_omitted_witness :
  let r := Transition.transition ["opacity"] initial_heap in
  Transition_render (Transition_set (ts_timingFunction (VStr "")) r.1 r.2)
  = join ", "
      (Transition_pairs
         (delete "transitionTimingFunction" (read r.2 (Transition.configuration r.1)))
         (Transition.properties r.1)
       :: (Transition.toString r.2 <$> Transition.otherTransitions r.1))
  /\ Transition_render (Transition_set (ts_timingFunction (VStr "")) r.1 r.2)
     = "opacity 300ms"
  /\ Transition_render (Transition_set (ts_duration (VNum NaN)) r.1 r.2)
     = "opacity cubic-bezier(0.4, 0, 0.2, 1)".
Proof.
  intros r. split; [|split; vm_compute; reflexivity].
  destruct falsy_value_is_omitted as [H _].
  apply (H (ts_timingFunction (VStr "")) r.1 r.2); [|reflexivity].
  apply Transition_transition_allocated, heap_ok_initial.
Defined.

End BuilderLaws.

(* ===================================================================== *)
(** ** The two versions of transition.ts *)
(* ===================================================================== *)

Section Versions.
Import Heap.

Lemma Recipe_ind' (P : Recipe -> Prop) :
  (forall properties, P (r_transition properties)) ->
  (forall r d, P r -> P (r_duration r d)) ->
  (forall r e, P r -> P (r_easing r e)) ->
  (forall r rs, P r -> Forall P rs -> P (r_and r rs)) ->
  forall r, P r.
Proof.
  intros Ht Hd He Ha. fix IH 1. intros [properties|r d|r e|r rs].
  - apply Ht.
  - apply Hd, IH.
  - apply He, IH.
  - apply Ha; [apply IH|].
    induction rs as [|r' rs IHrs]; constructor; [apply IH|exact IHrs].
Qed.

Lemma truthy_defined v : Value_toBoolean v = true -> Value_is_undefined v = false.
Proof. by destruct v. Qed.

Lemma truthy_text v : Value_toBoolean v = true -> Value_toString v = Value_text v.
Proof. by destruct v. Qed.

Lemma extends_refl h : extends h h.
Proof. by split. Qed.

Lemma extends_trans h1 h2 h3 : extends h1 h2 -> extends h2 h3 -> extends h1 h3.
Proof.
  intros [H1 R1] [H2 R2]. split; [lia|].
  intros l Hl. rewrite R2 by lia. by apply R1.
Qed.

Lemma extends_alloc o h : extends h (alloc o h).2.
Proof.
  split; [cbn; lia|]. intros l Hl. apply read_alloc_old. lia.
Qed.

Lemma extends_heap_ok h h' : extends h h' -> heap_ok h -> heap_ok h'.
Proof. unfold heap_ok. intros [H _]. lia. Qed.

Lemma extends_allocated h h' ls : extends h h' -> allocated h ls -> allocated h' ls.
Proof.
  intros [H _] Hls. eapply Forall_impl; [exact Hls|]. cbn beta. lia.
Qed.

Lemma extends_toString h h' b :
  extends h h' -> allocated h (Transition_locations b) ->
  Transition.toString h' b = Transition.toString h b.
Proof.
  intros [_ R] Hb. apply Transition_toString_frame.
  eapply Forall_impl; [exact Hb|]. cbn beta. intros l Hl. apply R. lia.
Qed.

Lemma extends_defaults st h h' :
  heap_ok h -> extends h h' -> defaults_agree st h -> defaults_agree st h'.
Proof.
  intros Hh [_ R]. unfold defaults_agree. rewrite R; [done|].
  unfold heap_ok, first_free in Hh.
  unfold Transition.defaultConfig, transition_defaultConfig. lia.
Qed.

Lemma extends_refines h h' old b :
  extends h h' -> allocated h (Transition_locations b) ->
  refines h old b -> refines h' old b.
Proof.
  intros He Hb. pose proof He as [_ R]. destruct b as [p c others].
  pose proof Hb as [Hc Ho]%Transition_locations_Forall.
  unfold refines. cbn [Transition.configuration Transition.otherTransitions].
  rewrite (R c) by lia.
  intros (H1 & H2 & H3 & H4 & H5 & H6 & H7).
  repeat (split; [assumption|]).
  rewrite <- H7. apply Forall_fmap_ext_1.
  eapply Forall_impl; [exact Ho|]. intros b. by apply extends_toString.
Qed.

(** An instance that holds what the earlier one holds renders what the
    earlier one renders. *)
Lemma refines_toString h old b :
  refines h old b -> Transition.toString h b = LegacyTransition.toString old.
Proof.
  destruct b as [p c others], old as [p' d e others'].
  unfold refines. cbn [Transition.properties Transition.configuration
    Transition.otherTransitions LegacyTransition.properties
    LegacyTransition.durationValue LegacyTransition.easingValue
    LegacyTransition.otherTransitions].
  intros (-> & Hd & He & Hdelay & Td & Te & Ho).
  cbn [Transition.toString LegacyTransition.toString]. rewrite Ho.
  unfold Transition.cfg, render_fields. rewrite Hd, He.
  cbn [List.filter]. rewrite Td, Te, Hdelay.
  cbn [fmap list_fmap]. rewrite join_cons, join_singleton.
  by rewrite (truthy_text _ Td), (truthy_text _ Te).
Qed.

Lemma in_order_cons {A B} (f : A -> M B) x l h :
  in_order f (x :: l) h
  = ((f x h).1 :: (in_order f l (f x h).2).1, (in_order f l (f x h).2).2).
Proof.
  change (in_order f (x :: l)) with (b <- f x ;; bs <- in_order f l ;; ret (b :: bs)).
  unfold bind, ret. destruct (f x h) as [b h1]. cbn [fst snd].
  by destruct (in_order f l h1).
Qed.

Lemma in_order_simulated st rs :
  Forall (Recipe_simulated st) rs ->
  forallb Recipe_truthy rs = true ->
  forall h, heap_ok h -> defaults_agree st h ->
    extends h (in_order Recipe_new rs h).2
    /\ Forall (fun b => allocated (in_order Recipe_new rs h).2
                          (Transition_locations b))
              (in_order Recipe_new rs h).1
    /\ Transition.toString (in_order Recipe_new rs h).2
         <$> (in_order Recipe_new rs h).1
       = LegacyTransition.toString <$> (Recipe_legacy st <$> rs).
Proof.
  induction 1 as [|r rs Hr _ IH]; intros Hok h Hh Hst.
  - cbn. split; [apply extends_refl|]. by split.
  - cbn [forallb] in Hok. apply andb_true_iff in Hok as [Hok1 Hok2].
    rewrite in_order_cons.
    destruct (Hr Hok1 h Hh Hst) as (E1 & A1 & R1).
    destruct (Recipe_new r h) as [b h1]. cbn [fst snd] in *.
    destruct (IH Hok2 h1 (extends_heap_ok _ _ E1 Hh)
                (extends_defaults _ _ _ Hh E1 Hst)) as (E2 & A2 & R2).
    destruct (in_order Recipe_new rs h1) as [bs h2].
    cbn [fst snd] in *.
    split; [by eapply extends_trans|]. split.
    + constructor; [by eapply extends_allocated|exact A2].
    + cbn [fmap list_fmap]. f_equal; [|exact R2].
      rewrite (extends_toString h1 h2 b E2 A1). by apply refines_toString.
Qed.

Lemma Recipe_is_simulated st r : Recipe_simulated st r.
Proof.
  induction r as [properties|r d IH|r e IH|r rs IH IHrs] using Recipe_ind';
    intros Hok h Hh Hst.
  - cbn [Recipe_new Recipe_legacy]. rewrite Transition_transition_eq.
    cbn [fst snd]. split; [apply extends_alloc|]. split.
    + apply (Transition_transition_allocated properties h Hh).
    + destruct Hst as (Hd & He & Hdelay & Td & Te).
      unfold refines. cbn [Transition.configuration Transition.properties
        Transition.otherTransitions].
      rewrite (read_alloc_new _ h). by repeat split.
  - cbn [Recipe_truthy] in Hok. apply andb_true_iff in Hok as [Hok Hd].
    cbn [Recipe_new Recipe_legacy]. unfold bind.
    destruct (IH Hok h Hh Hst) as (E1 & A1 & R1).
    destruct (Recipe_new r h) as [b h1]. cbn [fst snd] in E1, A1, R1.
    pose proof (extends_heap_ok _ _ E1 Hh) as Hh1.
    rewrite Transition_duration_eq. cbn [fst snd].
    split; [eapply extends_trans; [exact E1|apply extends_alloc]|].
    split; [by apply Transition_setter_allocated|].
    destruct R1 as (Rp & Rd & Re & Rdelay & Td & Te & Ro).
    unfold refines, LegacyTransition.duration, LegacyTransition.new.
    cbn [Transition.configuration Transition.properties
      Transition.otherTransitions LegacyTransition.properties
      LegacyTransition.durationValue LegacyTransition.easingValue
      LegacyTransition.otherTransitions default from_option id].
    rewrite (read_alloc_new _ h1).
    change (if isNaN (Value_toNumber d) then d
            else VStr (JsNumber.toString (Value_toNumber d) +:+ "ms"))
      with (coerceToTime d None).
    rewrite (truthy_defined _ Hd), (truthy_defined _ Te).
    rewrite get_insert, !get_insert_ne by discriminate.
    repeat (split; [assumption || reflexivity|]).
    rewrite <- Ro. destruct b as [p c others].
    by apply (Transition_others_alloc _ _ p c).
  - cbn [Recipe_truthy] in Hok. apply andb_true_iff in Hok as [Hok He].
    cbn [Recipe_new Recipe_legacy]. unfold bind.
    destruct (IH Hok h Hh Hst) as (E1 & A1 & R1).
    destruct (Recipe_new r h) as [b h1]. cbn [fst snd] in E1, A1, R1.
    pose proof (extends_heap_ok _ _ E1 Hh) as Hh1.
    rewrite Transition_timingFunction_eq. cbn [fst snd].
    split; [eapply extends_trans; [exact E1|apply extends_alloc]|].
    split; [by apply Transition_setter_allocated|].
    destruct R1 as (Rp & Rd & Re & Rdelay & Td & Te & Ro).
    unfold refines, LegacyTransition.easing, LegacyTransition.new.
    cbn [Transition.configuration Transition.properties
      Transition.otherTransitions LegacyTransition.properties
      LegacyTransition.durationValue LegacyTransition.easingValue
      LegacyTransition.otherTransitions default from_option id].
    rewrite (read_alloc_new _ h1).
    rewrite (truthy_defined _ He), (truthy_defined _ Td).
    rewrite get_insert, !get_insert_ne by discriminate.
    repeat (split; [assumption || reflexivity|]).
    rewrite <- Ro. destruct b as [p c others].
    by apply (Transition_others_alloc _ _ p c).
  - cbn [Recipe_truthy] in Hok. apply andb_true_iff in Hok as [Hok Hoks].
    cbn [Recipe_new Recipe_legacy]. unfold bind.
    destruct (IH Hok h Hh Hst) as (E1 & A1 & R1).
    destruct (Recipe_new r h) as [b h1]. cbn [fst snd] in E1, A1, R1.
    pose proof (extends_heap_ok _ _ E1 Hh) as Hh1.
    destruct (in_order_simulated st rs IHrs Hoks h1 Hh1
                (extends_defaults _ _ _ Hh E1 Hst)) as (E2 & A2 & R2).
    destruct (in_order Recipe_new rs h1) as [bs h2]. cbn [fst snd] in E2, A2, R2.
    rewrite Transition_and_eq. cbn [fst snd].
    split; [by eapply extends_trans|].
    pose proof (extends_allocated _ _ _ E2 A1) as A1'.
    pose proof (extends_refines _ _ _ _ E2 A1 R1) as R1'.
    split.
    + apply (Transition_and_allocated b bs h2 A1' A2).
    + destruct R1' as (Rp & Rd & Re & Rdelay & Td & Te & Ro).
      unfold refines, LegacyTransition.and, LegacyTransition.new.
      cbn [Transition.configuration Transition.properties
        Transition.otherTransitions LegacyTransition.properties
        LegacyTransition.durationValue LegacyTransition.easingValue
        LegacyTransition.otherTransitions default from_option id].
      rewrite (truthy_defined _ Td), (truthy_defined _ Te).
      repeat (split; [assumption|]).
      by rewrite !fmap_app, Ro, R2.
Qed.

(** X22. The later transition.ts keeps the renderings of the earlier one.
    The two start with defaults that agree; a change of the defaults that
    leaves out or gives a truthy value to each field keeps them agreeing;
    and, with agreeing defaults, every builder expression made of
    [transition], [duration], the easing setter and [and] whose stored
    values are truthy renders the same text in both versions. *)
Theorem later_version_keeps_renderings :
  defaults_agree LegacyTransition.initial_defaults initial_heap
  /\ (forall st h d e,
        defaults_agree st h -> absent_or_truthy d -> absent_or_truthy e ->
        defaults_agree
          (LegacyTransition.configureTransitionDefaults d e st)
          (Transition.transitionConfigDefaults (Legacy_config d e) h).2)
  /\ (forall st h r,
        heap_ok h -> defaults_agree st h -> Recipe_truthy r = true ->
        Transition_render (Recipe_new r h)
        = LegacyTransition.toString (Recipe_legacy st r)).
Proof.
  split; [|split].
  - unfold defaults_agree. vm_compute. by repeat split.
  - intros st h d e (Hd & He & Hdelay & Td & Te) Dd De.
    unfold defaults_agree, LegacyTransition.configureTransitionDefaults,
      Legacy_config.
    cbn [snd Transition.transitionConfigDefaults]. rewrite read_assign_same.
    rewrite !get_union.
    destruct Dd as [->|Dd], De as [->|De];
      rewrite ?(truthy_defined _ Dd), ?(truthy_defined _ De);
      cbn [Value_is_undefined LegacyTransition.defaultDuration
           LegacyTransition.defaultEasing];
      rewrite ?(left_id_L ∅ (∪)), ?(right_id_L ∅ (∪));
      rewrite ?lookup_union, ?lookup_singleton_eq, ?lookup_singleton_ne,
        ?lookup_empty by discriminate;
      cbn [union option_union union_with option_union_with];
      by repeat split.
  - intros st h r Hh Hst Hok. unfold Transition_render.
    apply refines_toString. by apply Recipe_is_simulated.
Qed.

Lemma later_version_keeps_renderings_witness :
  let st := LegacyTransition.configureTransitionDefaults
              (VStr "1s") VUndefined LegacyTransition.initial_defaults in
  let h := (Transition.transitionConfigDefaults
              (Legacy_config (VStr "1s") VUndefined) initial_heap).2 in
  let r := r_and (r_easing (r_transition ["opacity"]) (VStr "ease-in"))
                 [r_duration (r_transition ["transform"]) (VNum (of_Z 150))] in
  Transition_render (Recipe_new r h)
  = LegacyTransition.toString (Recipe_legacy st r)
  /\ LegacyTransition.toString (Recipe_legacy st r)
     = "opacity 1s ease-in, transform 150ms cubic-bezier(0.4, 0, 0.2, 1)".
Proof.
  intros st h r. split; [|vm_compute; reflexivity].
  destruct later_version_keeps_renderings as (H0 & H1 & H2).
  apply H2.
  - apply heap_ok_assign, heap_ok_initial.
  - apply H1; [exact H0|right; reflexivity|left; reflexivity].
  - vm_compute. reflexivity.
Defined.

(** Without the truthiness the two versions part: the earlier one renders
    an empty easing as a trailing space, the later one drops it. *)
Example versions_part_on_empty_easing :
  let r := r_easing (r_transition ["opacity"]) (VStr "") in
  Transition_render (Recipe_new r initial_heap) = "opacity 300ms"
  /\ LegacyTransition.toString (Recipe_legacy LegacyTransition.initial_defaults r)
     = "opacity 300ms ".
Proof. vm_compute. by split. Qed.

End Versions.

(* ===================================================================== *)
(** ** The package's tests, replayed on the model *)
(* ===================================================================== *)

Section Tests.
Import Calc calc_ts.

Example test_add_number_and_string :
  expressions (add (calc (ONum (of_Z 1))) [ONum (of_Z 2); OStr "3"]) = ["1"; "2"; "3"]
  /\ Calc.toString (add (calc (ONum (of_Z 1))) [ONum (of_Z 2); OStr "3"]) = "calc(1 + 2 + 3)".
Proof. split; vm_compute; reflexivity. Qed.

Example test_subtract_product :
  expressions (subtract (calc (ONum (of_Z 1))) [OCalc (multiply (calc (ONum (of_Z 2))) [ONum (of_Z 3)])])
  = ["1"; "2 * 3"]
  /\ Calc.toString (subtract (calc (ONum (of_Z 1))) [OCalc (multiply (calc (ONum (of_Z 2))) [ONum (of_Z 3)])])
     = "calc(1 - 2 * 3)".
Proof. split; vm_compute; reflexivity. Qed.

Example test_divide_by_sum :
  expressions (divide (calc (ONum (of_Z 1))) [OCalc (add (calc (ONum (of_Z 2))) [ONum (of_Z 3)])])
  = ["1"; "(2 + 3)"]
  /\ Calc.toString (divide (calc (ONum (of_Z 1))) [OCalc (add (calc (ONum (of_Z 2))) [ONum (of_Z 3)])])
     = "calc(1 / (2 + 3))".
Proof. split; vm_compute; reflexivity. Qed.

Example test_multiply_css_variable :
  Calc.toString (multiply (calc (ONum (of_Z 1))) [OStr "var(--some-css-var)"]) = "calc(1 * var(--some-css-var))".
Proof. vm_compute. reflexivity. Qed.

Example test_negate :
  Calc.toString (negate (calc (ONum (of_Z 1)))) = "calc(-1 * 1)"
  /\ Calc.toString (negate (subtract (calc (ONum (of_Z 1))) [ONum (of_Z 3)])) = "calc(-1 * (1 - 3))"
  /\ Calc.toString (negate (divide (calc (ONum (of_Z 1))) [ONum (of_Z 3)])) = "calc(-1 * 1 / 3)".
Proof. repeat split; vm_compute; reflexivity. Qed.

Example test_max_chain :
  Calc.toString (Calc.max (add (calc (ONum (of_Z 4))) [ONum (of_Z 3)])
                          [OCalc (add (calc (ONum (of_Z 4))) [ONum (of_Z 3)]); ONum (of_Z 2); ONum (of_Z 3)])
  = "max(calc(4 + 3), calc(4 + 3), 2, 3)".
Proof. vm_compute. reflexivity. Qed.

(** [Math.random()] mocked to return 0.1234. *)
Example test_random :
  expressions (random (of_decimal false 1234 (-4)) (of_Z 1) (of_Z 0)) = ["0.1234"]
  /\ expressions (random (of_decimal false 1234 (-4)) (of_Z 10) (of_Z 0)) = ["1.234"]
  /\ expressions (random (of_decimal false 1234 (-4)) (of_Z 10) (of_Z 5)) = ["6.234"].
Proof. repeat split; vm_compute; reflexivity. Qed.

Example test_transition_toString :
  (let '(b, h) := Transition.transition ["opacity"; "transform"] initial_heap in
   Transition.toString h b
   = "opacity 300ms cubic-bezier(0.4, 0, 0.2, 1), transform 300ms cubic-bezier(0.4, 0, 0.2, 1)")
  /\ (let '(b, h) :=
        (b0 <- Transition.transition ["opacity"] ;;
         b1 <- Transition.duration b0 (VStr "1s") ;;
         b2 <- Transition.transition ["transform"] ;;
         Transition.and b1 [b2]) initial_heap in
      Transition.toString h b
      = "opacity 1s cubic-bezier(0.4, 0, 0.2, 1), transform 300ms cubic-bezier(0.4, 0, 0.2, 1)").
Proof. split; vm_compute; reflexivity. Qed.

(** The rendering of numbers agrees with the runtime on the usual cases. *)
Example test_number_rendering :
  JsNumber.toString <$>
    [of_decimal false 1 (-1); of_decimal false 1 21; of_decimal false 1 (-7);
     of_decimal false 123456 (-3); of_decimal false 5 (-324);
     JsNumber.add (of_decimal false 1 (-1)) (of_decimal false 2 (-1));
     of_decimal false 9007199254740993 0; of_decimal true 25 (-2)]
  = ["0.1"; "1e+21"; "1e-7"; "123.456"; "5e-324"; "0.30000000000000004";
     "9007199254740992"; "-0.25"].
Proof. vm_compute. reflexivity. Qed.

Example test_number_parsing :
  (fun s => JsNumber.toString (JsNumber.ofString s)) <$>
    ["10"; "-5"; " 12 "; ""; "1.50"; "1e3"; "0x1F"; ".5"; "5."; "Infinity";
     "300ms"; "1s"; "var(--x)"; "."; "1e"; "0x"; "-0x10"]
  = ["10"; "-5"; "12"; "0"; "1.5"; "1000"; "31"; "0.5"; "5"; "Infinity";
     "NaN"; "NaN"; "NaN"; "NaN"; "NaN"; "NaN"; "NaN"].
Proof. vm_compute. reflexivity. Qed.

End Tests.
